(** * SMQTK-Descriptors: the descriptor element interface

    A shallow embedding of [smqtk_descriptors/interfaces/descriptor_element.py]
    and of the in-memory descriptor set its test-suite exercises, followed by
    the properties of the specification that were checked against it.

    Conventions of the embedding:
    - a Python call that may raise returns a [Py.result];
    - a [dict] that is only read and written by key is a [gmap]; a [dict]
      whose iteration order is observed is an insertion-ordered association
      list ([Py.dict]);
    - a [list] assigned by index is a Rocq list updated with stdpp's
      [<[i:=x]>], the range check of Python written out;
    - dictionaries that are mutated through references live in a heap. *)

From Stdlib Require Import ZArith.
From stdpp Require Import base option list gmap strings.

Local Open Scope Z_scope.

(** * Python preliminaries *)

Module Py.

(** The exceptions the modelled code can raise.  [Dangling] is not a Python
    exception: it marks the use of a reference to no object, which no
    well-formed heap contains. *)
Inductive exn : Type :=
| KeyError
| IndexError
| RecursionError
| Dangling.

Inductive result (A : Type) : Type :=
| Ok (a : A)
| Raise (e : exn).
Arguments Ok {A} a.
Arguments Raise {A} e.

#[global] Instance result_ret : MRet result := fun A a => Ok a.

#[global] Instance result_bind : MBind result := fun A B f m =>
  match m with
  | Ok a => f a
  | Raise e => Raise e
  end.

(** [for x in xs: st = body(st, x)], stopping at the first exception. *)
Fixpoint for_each {A St : Type} (xs : list A) (st : St)
    (body : St -> A -> result St) : result St :=
  match xs with
  | [] => Ok st
  | x :: xs' => st' ← body st x; for_each xs' st' body
  end.

(** [enumerate(xs)] *)
Definition enumerate {A : Type} (xs : list A) : list (Z * A) :=
  imap (fun i x => (Z.of_nat i, x)) xs.

(** [[x] * n]: a non-positive count gives the empty list. *)
Definition list_repeat {A : Type} (x : A) (n : Z) : list A :=
  replicate (Z.to_nat n) x.

(** [l[i] = x] on a list: a negative index counts from the end, and an index
    outside the list raises [IndexError]. *)
Definition list_setitem {A : Type} (l : list A) (i : Z) (x : A)
    : result (list A) :=
  let n := Z.of_nat (length l) in
  let j := if i <? 0 then i + n else i in
  if (0 <=? j) && (j <? n)
  then Ok (<[Z.to_nat j := x]> l)
  else Raise IndexError.

(** [d[k]] on a dict held as a finite map. *)
Definition getitem `{Countable K} {V : Type} (d : gmap K V) (k : K)
    : result V :=
  match d !! k with
  | Some v => Ok v
  | None => Raise KeyError
  end.

(** Insertion-ordered dictionaries: every key occurs once, a new key goes to
    the end, and assigning to a present key keeps its place. *)
Definition dict (K V : Type) : Type := list (K * V).

Section ordered_dict.
Context {K V : Type} `{EqDecision K}.

Fixpoint dict_get (d : dict K V) (k : K) : option V :=
  match d with
  | [] => None
  | (k', v) :: d' => if decide (k' = k) then Some v else dict_get d' k
  end.

Fixpoint dict_set (d : dict K V) (k : K) (v : V) : dict K V :=
  match d with
  | [] => [(k, v)]
  | (k', v') :: d' =>
      if decide (k' = k) then (k, v) :: d'
      else (k', v') :: dict_set d' k v
  end.

Fixpoint dict_remove (d : dict K V) (k : K) : dict K V :=
  match d with
  | [] => []
  | (k', v) :: d' =>
      if decide (k' = k) then d' else (k', v) :: dict_remove d' k
  end.

(** [del d[k]] *)
Definition dict_del (d : dict K V) (k : K) : result (dict K V) :=
  match dict_get d k with
  | Some _ => Ok (dict_remove d k)
  | None => Raise KeyError
  end.

Definition dict_keys (d : dict K V) : list K := d.*1.

(** The invariant of a dictionary: no key occurs twice. *)
Definition dict_wf (d : dict K V) : Prop := NoDup (dict_keys d).

End ordered_dict.

(** ** Dictionaries behind references

    A configuration dictionary is a mutable object: its entries hold plain
    values or references to further dictionaries, and the objects themselves
    live in a heap. *)
Definition loc : Type := positive.

Inductive pyval (Any : Type) : Type :=
| Leaf (v : Any)
| DictRef (l : loc).
Arguments Leaf {Any} v.
Arguments DictRef {Any} l.

Abbreviation dictobj Any := (dict string (pyval Any)).
Abbreviation heap Any := (gmap loc (dictobj Any)).

Definition deref {Any : Type} (h : heap Any) (l : loc)
    : result (dictobj Any) :=
  match h !! l with
  | Some d => Ok d
  | None => Raise Dangling
  end.

(** [d[k] = v] through the reference [d]. *)
Definition setitem {Any : Type} (h : heap Any) (d : loc) (k : string)
    (v : pyval Any) : result (heap Any) :=
  o ← deref h d; Ok (<[d := dict_set o k v]> h).

(** [{}]: a new empty dictionary. *)
Definition new_dict {Any : Type} (h : heap Any) : loc * heap Any :=
  let l := fresh (dom h) in (l, <[l := []]> h).

End Py.

Import Py.

(** * numpy *)

Module numpy.

Section array_equal.
Context {scalar : Type} (scalar_eqb : scalar -> scalar -> bool).

(** [numpy.array_equal(a1, a2)] on the two kinds of argument the element
    interface passes: a one-dimensional array, or [None].  [asarray(None)]
    is a zero-dimensional object array, so its shape [()] differs from any
    [(n,)], and [None == None] holds; for two arrays the shapes are compared
    and then [(a1 == a2).all()] is taken. *)
Definition array_equal (a1 a2 : option (list scalar)) : bool :=
  match a1, a2 with
  | None, None => true
  | Some v1, Some v2 =>
      if decide (length v1 = length v2)
      then forallb (fun p => scalar_eqb p.1 p.2) (zip v1 v2)
      else false
  | _, _ => false
  end.

End array_equal.

End numpy.

(** * smqtk_core.dict *)

Module smqtk_core.

Section merge_dict.
Context {Any : Type}.

(** [merge_dict(a, b)] with its default [deep_copy=False]:
<<
    for k in b:
        if k in a and isinstance(a[k], dict) and isinstance(b[k], dict):
            merge_dict(a[k], b[k], deep_copy)
        else:
            a[k] = b[k]
    return a
>>
    The recursion follows references, so it is bounded by [fuel], the depth
    of recursion the interpreter still allows. *)
Fixpoint merge_dict (fuel : nat) (a b : loc) (h : heap Any)
    : result (heap Any) :=
  match fuel with
  | O => Raise RecursionError
  | S fuel' =>
      bd ← deref h b;
      for_each (dict_keys bd) h (fun h k =>
        ad ← deref h a;
        bd ← deref h b;
        match dict_get ad k, dict_get bd k with
        | Some (DictRef a'), Some (DictRef b') => merge_dict fuel' a' b' h
        | _, Some v => Ok (<[a := dict_set ad k v]> h)
        | _, None => Raise KeyError
        end)
  end.

End merge_dict.

End smqtk_core.

(** * DescriptorElement *)

Section descriptor_element.

(** [pytype]: the concrete classes ([type(d)]), [Any]: the plain Python
    values used as type labels, uuids and configuration values, [scalar]:
    the entries of a vector. *)
Context {pytype : Type} `{EqDecision pytype}.
Context {Any : Type} `{Countable Any}.
Context {scalar : Type}.

Abbreviation ndarray := (list scalar).

(** An element: its concrete class, the two attributes [__init__] sets, and
    the vector the container currently stores, which is what the abstract
    method [vector()] of the concrete class returns ([None] when there is
    none). *)
Record DescriptorElement : Type := {
  cls : pytype;
  _type_label : Any;
  _uuid : Any;
  _vector : option ndarray;
}.

(** A Python value met as the right operand of [==]. *)
Inductive object : Type :=
| Element (d : DescriptorElement)
| Other (v : Any).

Definition __init__ (c : pytype) (type_str uuid : Any) (v : option ndarray)
    : DescriptorElement :=
  {| cls := c; _type_label := type_str; _uuid := uuid; _vector := v |}.

Definition uuid (self : DescriptorElement) : Any := _uuid self.

Definition type (self : DescriptorElement) : Any := _type_label self.

Definition vector (self : DescriptorElement) : option ndarray := _vector self.

Definition _uuid_and_vector_from_descriptor (descriptor : DescriptorElement)
    : Any * option ndarray :=
  (uuid descriptor, vector descriptor).

Section hashing.
(** The builtin [hash]. *)
Variable hash : Any -> Z.

Definition __hash__ (self : DescriptorElement) : Z := hash (uuid self).
End hashing.

Section equality.
Variable scalar_eqb : scalar -> scalar -> bool.

Definition __eq__ (self : DescriptorElement) (other : object) : bool :=
  match other with
  | Element other => numpy.array_equal scalar_eqb (vector self) (vector other)
  | Other _ => false
  end.

Definition __ne__ (self : DescriptorElement) (other : object) : bool :=
  negb (__eq__ self other).
End equality.

Definition __getstate__ (self : DescriptorElement) : gmap string Any :=
  {[ "_type_label" := _type_label self; "_uuid" := _uuid self ]}.

Definition __setstate__ (self : DescriptorElement) (state : gmap string Any)
    : result DescriptorElement :=
  type_label ← getitem state "_type_label";
  uuid ← getitem state "_uuid";
  Ok {| cls := cls self; _type_label := type_label; _uuid := uuid;
        _vector := _vector self |}.

Section configuration.
(** [Configurable.get_default_config] of the parent class: the dictionary
    discovered from the constructor of the class. *)
Variable Configurable_get_default_config : pytype -> dictobj Any.

Definition get_default_config (c : pytype) : result (dictobj Any) :=
  let dc := Configurable_get_default_config c in
  dc ← dict_del dc "type_str";
  dc ← dict_del dc "uuid";
  Ok dc.

(** The body of [from_config] up to the call of the parent class: the
    dictionary [c] that is handed on, as a reference into the heap. *)
Definition from_config_c (fuel : nat) (config_dict : loc)
    (type_str uuid : Any) (h : heap Any) : result (loc * heap Any) :=
  let '(c, h) := new_dict h in
  h ← smqtk_core.merge_dict fuel c config_dict h;
  h ← setitem h c "type_str" (Leaf type_str);
  h ← setitem h c "uuid" (Leaf uuid);
  Ok (c, h).

(** [Configurable.from_config] of the parent class, which constructs the
    instance from the dictionary it is given. *)
Variable Configurable_from_config :
  pytype -> loc -> bool -> heap Any -> result (DescriptorElement * heap Any).

Definition from_config (c : pytype) (fuel : nat) (config_dict : loc)
    (type_str uuid : Any) (merge_default : bool) (h : heap Any)
    : result (DescriptorElement * heap Any) :=
  '(c', h) ← from_config_c fuel config_dict type_str uuid h;
  Configurable_from_config c c' merge_default h.
End configuration.

(** ** Batched retrieval *)

Section get_many_vectors.
(** [_cls._get_many_vectors(descriptor_batch)], which a concrete class may
    override: the pairs it yields, in the order it yields them. *)
Variable _get_many_vectors :
  pytype -> list DescriptorElement -> list (Any * option ndarray).

(** [batch_dictionary[k].append(x)] on a [defaultdict(list)]. *)
Fixpoint defaultdict_append (bd : dict pytype (list DescriptorElement))
    (k : pytype) (x : DescriptorElement)
    : dict pytype (list DescriptorElement) :=
  match bd with
  | [] => [(k, [x])]
  | (k', l) :: bd' =>
      if decide (k' = k) then (k', l ++ [x]) :: bd'
      else (k', l) :: defaultdict_append bd' k x
  end.

(** The variables of the first loop. *)
Record grouping : Type := {
  batch_dictionary : dict pytype (list DescriptorElement);
  uuid_indices : gmap Any Z;
  index : Z;
}.

Definition grouping_init : grouping :=
  {| batch_dictionary := []; uuid_indices := ∅; index := -1 |}.

Definition group_step (g : grouping) (p : Z * DescriptorElement) : grouping :=
  let '(index, descriptor_) := p in
  {| batch_dictionary :=
       defaultdict_append (batch_dictionary g) (cls descriptor_) descriptor_;
     uuid_indices := <[uuid descriptor_ := index]> (uuid_indices g);
     index := index |}.

Definition group_descriptors (descriptors : list DescriptorElement)
    : grouping :=
  fold_left group_step (enumerate descriptors) grouping_init.

(** [ordered_vectors[uuid_indices[uuid]] = vector] *)
Definition store_vector (uuid_indices : gmap Any Z)
    (ordered_vectors : list (option ndarray)) (p : Any * option ndarray)
    : result (list (option ndarray)) :=
  let '(uuid, vector) := p in
  i ← getitem uuid_indices uuid;
  list_setitem ordered_vectors i vector.

Definition get_many_vectors (descriptors : list DescriptorElement)
    : result (list (option ndarray)) :=
  let g := group_descriptors descriptors in
  let ordered_vectors := list_repeat None (index g + 1) in
  for_each (batch_dictionary g) ordered_vectors
    (fun ordered_vectors '(_cls, descriptor_batch) =>
       for_each (_get_many_vectors _cls descriptor_batch) ordered_vectors
         (store_vector (uuid_indices g))).

End get_many_vectors.

End descriptor_element.

(** ** Batch-fetches that raise

    A batch-fetch is a generator, and a generator may raise after the pairs
    it has yielded; [get_many_vectors] has no handler, so the fault ends the
    call.  Here the run of a batch-fetch is the list of the pairs it yields
    together with the fault it raises after them, if it raises; the
    definition above is the case in which no batch-fetch raises. *)

Section batch_fetch_faults.
Context {pytype : Type} `{EqDecision pytype}.
Context {Any : Type} `{Countable Any}.
Context {scalar : Type}.
(** The faults of the backends. *)
Context {Fault : Type}.

(** What ends a call: an exception of the code of [get_many_vectors] itself,
    or the fault of a batch-fetch. *)
Inductive raised : Type :=
| PyExn (e : exn)
| BackendFault (f : Fault).

Inductive fallible (A : Type) : Type :=
| Returned (a : A)
| Raised (r : raised).
Arguments Returned {A} a.
Arguments Raised {A} r.

Variable _get_many_vectors_run :
  pytype -> list (@DescriptorElement pytype Any scalar) ->
  list (Any * option (list scalar)) * option Fault.

(** The inner loop over one batch-fetch: its pairs are stored one by one,
    then its fault, if any, is raised. *)
Definition consume_batch (uuid_indices : gmap Any Z)
    (ordered_vectors : list (option (list scalar)))
    (run : list (Any * option (list scalar)) * option Fault)
    : fallible (list (option (list scalar))) :=
  match for_each run.1 ordered_vectors (store_vector uuid_indices) with
  | Raise e => Raised (PyExn e)
  | Ok ordered_vectors =>
      match run.2 with
      | Some f => Raised (BackendFault f)
      | None => Returned ordered_vectors
      end
  end.

(** The outer loop over [batch_dictionary.items()]. *)
Fixpoint consume_batches (uuid_indices : gmap Any Z)
    (batches : dict pytype (list (@DescriptorElement pytype Any scalar)))
    (ordered_vectors : list (option (list scalar)))
    : fallible (list (option (list scalar))) :=
  match batches with
  | [] => Returned ordered_vectors
  | (_cls, descriptor_batch) :: batches' =>
      match consume_batch uuid_indices ordered_vectors
              (_get_many_vectors_run _cls descriptor_batch) with
      | Returned ordered_vectors =>
          consume_batches uuid_indices batches' ordered_vectors
      | Raised r => Raised r
      end
  end.

Definition get_many_vectors_fallible
    (descriptors : list (@DescriptorElement pytype Any scalar))
    : fallible (list (option (list scalar))) :=
  let g := group_descriptors descriptors in
  let ordered_vectors := list_repeat None (index g + 1) in
  consume_batches (uuid_indices g) (batch_dictionary g) ordered_vectors.

End batch_fetch_faults.

Arguments Returned {Fault A} a.
Arguments Raised {Fault A} r.

(** * MemoryDescriptorSet

    The implementation of the in-memory set is not among the sources (only
    its test-suite is), so this part follows the specification. *)

(** Modelled from the spec: the error taxonomy of the descriptor set
    ([NotFoundError], [SerializationFault]) and the fault of a cache store
    whose write fails; the module [impls/descriptor_set/memory.py] that
    raises them is missing. *)
Inductive fault : Type :=
| NotFoundError
| SerializationFault
| StoreWriteFault.

Inductive outcome (A : Type) : Type :=
| Done (a : A)
| Failed (f : fault).
Arguments Done {A} a.
Arguments Failed {A} f.

#[global] Instance outcome_ret : MRet outcome := fun A a => Done a.

#[global] Instance outcome_bind : MBind outcome := fun A B f m =>
  match m with
  | Done a => f a
  | Failed e => Failed e
  end.

Abbreviation bytes := (list Byte.byte).

(** Modelled from the spec: the byte store, an external collaborator with
    the operations [isEmpty], [getBytes] and [setBytes] (the data element of
    [smqtk_dataprovider], which is missing).  A store is empty when it holds
    no byte, and after a write that succeeds it holds the bytes written. *)
Class ByteStore (S : Type) : Type := {
  isEmpty : S -> bool;
  getBytes : S -> bytes;
  setBytes : S -> bytes -> outcome S;
  isEmpty_getBytes : forall s, isEmpty s = true <-> getBytes s = [];
  getBytes_setBytes : forall s b s', setBytes s b = Done s' -> getBytes s' = b;
}.

(** Modelled from the spec: the versioned, language-native serialization of
    a table (the [pickle] module), known by its contract only: a table that
    is serialized and deserialized is the same table again.  The blob of a
    table, also of the empty one, is never the empty byte string. *)
Class Serializer (P T : Type) : Type := {
  dumps : P -> T -> bytes;
  loads : bytes -> outcome T;
  loads_dumps : forall p t, loads (dumps p t) = Done t;
  dumps_nonempty : forall p t, dumps p t <> [];
}.

Section memory_descriptor_set.
Context {pytype : Type} {Any : Type} `{Countable Any} {scalar : Type}.
Context {Store Proto : Type} `{ByteStore Store}.
Context `{Serializer Proto (gmap Any (@DescriptorElement pytype Any scalar))}.

(** Modelled from the spec: the state of a [MemoryDescriptorSet], whose
    class is missing: the table from key to element, the optional cache
    store and the serialization protocol. *)
Record MemoryDescriptorSet : Type := {
  _table : gmap Any (@DescriptorElement pytype Any scalar);
  cache_element : option Store;
  pickle_protocol : Proto;
}.

(** Modelled from the spec: construction, missing from the sources.  With a
    cache store that is present and not empty the table is read from its
    bytes, and a fault of the deserialization is fatal; otherwise the table
    starts empty. *)
Definition MemoryDescriptorSet_init (cache : option Store) (protocol : Proto)
    : outcome MemoryDescriptorSet :=
  match cache with
  | Some st =>
      if isEmpty st
      then Done {| _table := ∅; cache_element := cache;
                   pickle_protocol := protocol |}
      else
        t ← loads (getBytes st);
        Done {| _table := t; cache_element := cache;
                pickle_protocol := protocol |}
  | None =>
      Done {| _table := ∅; cache_element := None; pickle_protocol := protocol |}
  end.

(** Modelled from the spec: the set with its table replaced (the class is
    missing). *)
Definition with_table (self : MemoryDescriptorSet)
    (t : gmap Any (@DescriptorElement pytype Any scalar))
    : MemoryDescriptorSet :=
  {| _table := t; cache_element := cache_element self;
     pickle_protocol := pickle_protocol self |}.

(** Modelled from the spec: [cacheTable()], missing from the sources: the
    current table is serialized into the cache store; nothing happens when
    there is no cache store; a write that fails propagates. *)
Definition cache_table (self : MemoryDescriptorSet)
    : outcome MemoryDescriptorSet :=
  match cache_element self with
  | None => Done self
  | Some st =>
      st' ← setBytes st (dumps (pickle_protocol self) (_table self));
      Done {| _table := _table self; cache_element := Some st';
              pickle_protocol := pickle_protocol self |}
  end.

(** Modelled from the spec: [addDescriptor], missing from the sources.  As
    every mutating operation it changes the table in memory and then calls
    [cacheTable()] once. *)
Definition add_descriptor (self : MemoryDescriptorSet)
    (d : @DescriptorElement pytype Any scalar) : outcome MemoryDescriptorSet :=
  cache_table (with_table self (<[uuid d := d]> (_table self))).

(** Modelled from the spec: [addManyDescriptors], missing from the sources:
    every element is inserted under its key, then the cache is written
    once. *)
Definition add_many_descriptors (self : MemoryDescriptorSet)
    (ds : list (@DescriptorElement pytype Any scalar))
    : outcome MemoryDescriptorSet :=
  cache_table
    (with_table self (fold_left (fun t d => <[uuid d := d]> t) ds (_table self))).

(** Modelled from the spec: the removal of one key from the table (the
    class is missing); a key that is absent fails with [NotFoundError]. *)
Definition remove_key (t : gmap Any (@DescriptorElement pytype Any scalar))
    (k : Any) : outcome (gmap Any (@DescriptorElement pytype Any scalar)) :=
  match t !! k with
  | Some _ => Done (delete k t)
  | None => Failed NotFoundError
  end.

(** Modelled from the spec: [removeDescriptor], missing from the sources. *)
Definition remove_descriptor (self : MemoryDescriptorSet) (k : Any)
    : outcome MemoryDescriptorSet :=
  t ← remove_key (_table self) k;
  cache_table (with_table self t).

(** Modelled from the spec: the removal of several keys, one after the
    other (the class is missing); the first absent key fails. *)
Fixpoint remove_keys (t : gmap Any (@DescriptorElement pytype Any scalar))
    (ks : list Any) : outcome (gmap Any (@DescriptorElement pytype Any scalar)) :=
  match ks with
  | [] => Done t
  | k :: ks' => t' ← remove_key t k; remove_keys t' ks'
  end.

(** Modelled from the spec: [removeManyDescriptors], missing from the
    sources: the keys are removed, then the cache is written once. *)
Definition remove_many_descriptors (self : MemoryDescriptorSet)
    (ks : list Any) : outcome MemoryDescriptorSet :=
  t ← remove_keys (_table self) ks;
  cache_table (with_table self t).

(** Modelled from the spec: [clear()], missing from the sources: the table
    is emptied and the empty table is written to the cache. *)
Definition clear (self : MemoryDescriptorSet) : outcome MemoryDescriptorSet :=
  cache_table (with_table self ∅).

(** Modelled from the spec: the write-through invariant of a set that has a
    cache store (the class is missing): the store is not empty and its
    bytes deserialize to the table in memory. *)
Definition cache_in_sync (self : MemoryDescriptorSet) : Prop :=
  exists st, cache_element self = Some st /\
    isEmpty st = false /\ loads (getBytes st) = Done (_table self).

End memory_descriptor_set.

(** * A concrete setting

    Two backend classes, keys and labels that are integers or strings, and
    integer scalars: the setting of the examples below. *)

Inductive backend : Type := X | Y.

#[global] Instance backend_eq_dec : EqDecision backend.
Proof. solve_decision. Defined.

#[global] Instance backend_countable : Countable backend.
Proof.
  refine (inj_countable' (fun c => match c with X => false | Y => true end)
            (fun b : bool => if b then Y else X) _).
  by intros [].
Defined.

Inductive value : Type :=
| PyNone
| Int (z : Z)
| Str (s : string).

#[global] Instance value_eq_dec : EqDecision value.
Proof. solve_decision. Defined.

#[global] Instance value_countable : Countable value.
Proof.
  refine (inj_countable'
            (fun v => match v with
                      | PyNone => inl ()
                      | Int z => inr (inl z)
                      | Str s => inr (inr s)
                      end)
            (fun x : unit + (Z + string) =>
               match x with
               | inl _ => PyNone
               | inr (inl z) => Int z
               | inr (inr s) => Str s
               end) _).
  by intros [].
Defined.

Abbreviation elem := (@DescriptorElement backend value Z).

#[global] Instance elem_eq_dec : EqDecision elem.
Proof. solve_decision. Defined.

#[global] Instance elem_countable : Countable elem.
Proof.
  refine (inj_countable'
            (fun d : elem => (cls d, _type_label d, _uuid d, _vector d))
            (fun x => match x with
                      | (c, t, u, v) => __init__ c t u v
                      end) _).
  by intros [].
Defined.

Definition d0 : elem := __init__ X (Str "random") (Int 0) (Some [10; 11]).
Definition d1 : elem := __init__ X (Str "random") (Int 1) (Some [20; 21]).
Definition d2 : elem := __init__ Y (Str "random") (Int 2) (Some [30; 31]).
(** A second element with the uuid of [d0], and one without a vector. *)
Definition d0' : elem := __init__ Y (Str "other") (Int 0) (Some [40; 41]).
Definition d3 : elem := __init__ X (Str "random") (Int 3) None.

(** A batch-fetch that yields the pairs of its batch last element first, as
    a fetch whose tasks complete in reverse order does. *)
Definition reversed_fetch (c : backend) (batch : list elem)
    : list (value * option (list Z)) :=
  reverse (_uuid_and_vector_from_descriptor <$> batch).

(** A batch-fetch that, after the pairs of its batch, yields a pair for a
    uuid nobody asked for. *)
Definition stray_fetch (c : backend) (batch : list elem)
    : list (value * option (list Z)) :=
  (_uuid_and_vector_from_descriptor <$> batch) ++ [(Int 99, Some [0])].


(** Runs in which the batch-fetch of class [Y] yields the pairs of its batch
    and then raises, and in which the one of class [X] yields a stray pair
    before it raises. *)
Definition faulting_run (c : backend) (batch : list elem)
    : list (value * option (list Z)) * option string :=
  match c with
  | X => (_uuid_and_vector_from_descriptor <$> batch, None)
  | Y => (_uuid_and_vector_from_descriptor <$> batch, Some "connection lost")
  end.

Definition stray_then_faulting_run (c : backend) (batch : list elem)
    : list (value * option (list Z)) * option string :=
  (stray_fetch c batch, Some "connection lost").


(** A constructor with the two identity parameters and one parameter of its
    own, as the generic discovery reports it. *)
Definition discovered_config (c : backend) : dictobj value :=
  [("type_str", Leaf PyNone); ("uuid", Leaf PyNone); ("path", Leaf (Str "/tmp"))].

(** A heap with one configuration dictionary, at location [1], which has an
    entry under ["uuid"] of its own. *)
Definition config_heap : heap value :=
  {[ 1%positive := [("path", Leaf (Str "/data")); ("uuid", Leaf (Int 5))] ]}.

(** Modelled from the spec: a byte store in memory, after the memory data
    element the test-suite uses ([DataMemoryElement(bytes, readonly)]), which
    is missing: a write to a read-only store fails. *)
Record DataMemoryElement : Type := {
  _bytes : bytes;
  _readonly : bool;
}.

#[global] Instance DataMemoryElement_store : ByteStore DataMemoryElement.
Proof.
  refine {| isEmpty s := bool_decide (_bytes s = []);
            getBytes := _bytes;
            setBytes s b :=
              if _readonly s then Failed StoreWriteFault
              else Done {| _bytes := b; _readonly := false |} |}.
  - intros s. apply bool_decide_eq_true.
  - intros s b s'. destruct (_readonly s); [done|]. by intros [= <-].
Defined.

(** A positive number as a sequence of bytes, one per binary digit. *)
Fixpoint pos_to_bytes (p : positive) : bytes :=
  match p with
  | xH => []
  | xO p => Byte.x00 :: pos_to_bytes p
  | xI p => Byte.x01 :: pos_to_bytes p
  end.

Fixpoint bytes_to_pos (b : bytes) : option positive :=
  match b with
  | [] => Some xH
  | Byte.x00 :: b => xO <$> bytes_to_pos b
  | Byte.x01 :: b => xI <$> bytes_to_pos b
  | _ => None
  end.

(** Modelled from the spec: a serializer that honours the contract, built
    on the countable encoding of tables ([pickle] itself is missing): one
    header byte, then the digits of the code of the table. *)
#[global] Instance table_serializer : Serializer unit (gmap value elem).
Proof.
  refine {| dumps _ t := Byte.x80 :: pos_to_bytes (encode t);
            loads b :=
              match b with
              | Byte.x80 :: b' =>
                  match bytes_to_pos b' ≫= decode with
                  | Some t => Done t
                  | None => Failed SerializationFault
                  end
              | _ => Failed SerializationFault
              end |}.
  - intros _ t.
    assert (forall p, bytes_to_pos (pos_to_bytes p) = Some p) as ->.
    { induction p as [p IH|p IH|]; simpl; by rewrite ?IH. }
    simpl. by rewrite decode_encode.
  - done.
Defined.

Definition cached_set : @MemoryDescriptorSet backend value _ _ Z
                          DataMemoryElement unit :=
  {| _table := {[ Int 0 := d0 ]};
     cache_element := Some {| _bytes := []; _readonly := false |};
     pickle_protocol := () |}.

(** * Vocabulary of the statements *)

Section vocabulary.
Context {pytype : Type} `{EqDecision pytype}.
Context {Any : Type} `{Countable Any}.
Context {scalar : Type}.

Abbreviation element := (@DescriptorElement pytype Any scalar).
Abbreviation fetcher :=
  (pytype -> list element -> list (Any * option (list scalar))).

(** The elements of class [c] among the input, in encounter order: the batch
    that is handed to the batch-fetch of [c]. *)
Definition batch_of (c : pytype) (ds : list element) : list element :=
  filter (fun d => cls d = c) ds.

(** Every pair the second loop consumes, in the order the batch-fetches
    yield them. *)
Definition fetched (fetch : fetcher) (ds : list element)
    : list (Any * option (list scalar)) :=
  concat ((fun e => fetch e.1 e.2) <$> batch_dictionary (group_descriptors ds)).

(** Position [i] holds the last element of [ds] whose uuid is [u]. *)
Definition last_occurrence (ds : list element) (u : Any) (i : nat) : Prop :=
  (exists d, ds !! i = Some d /\ uuid d = u) /\
  forall j d, (i < j)%nat -> ds !! j = Some d -> uuid d <> u.

(** The writes of the second loop when no lookup fails. *)
Definition writes (idx : gmap Any Z) (ps : list (Any * option (list scalar)))
    (ov : list (option (list scalar))) : list (option (list scalar)) :=
  fold_left (fun ov p =>
    match idx !! p.1 with
    | Some z => <[Z.to_nat z := p.2]> ov
    | None => ov
    end) ps ov.

(** Every index of the map is a position of a list of length [n]. *)
Definition indices_below (idx : gmap Any Z) (n : nat) : Prop :=
  forall u z, idx !! u = Some z -> 0 <= z < Z.of_nat n.

(** Two optional vectors agree entry by entry under the scalar [==]; no
    vector agrees with no vector only. *)
Definition elementwise_equal (scalar_eqb : scalar -> scalar -> bool)
    (a b : option (list scalar)) : Prop :=
  match a, b with
  | None, None => True
  | Some v, Some w => Forall2 (fun x y => scalar_eqb x y = true) v w
  | _, _ => False
  end.

(** Every key a batch-fetch yields is the uuid of an element of the input. *)
Definition answers_within (fetch : fetcher) (ds : list element) : Prop :=
  forall c p, c ∈ cls <$> ds -> p ∈ fetch c (batch_of c ds) ->
    p.1 ∈ uuid <$> ds.

(** Every key a batch-fetch yields is the uuid of an element of the batch it
    was given. *)
Definition answers_own_batch (fetch : fetcher) (ds : list element) : Prop :=
  forall c p, c ∈ cls <$> ds -> p ∈ fetch c (batch_of c ds) ->
    p.1 ∈ uuid <$> batch_of c ds.

(** A batch-fetch reports one vector per uuid: two pairs it yields for the
    same uuid carry the same vector. *)
Definition answers_once (fetch : fetcher) (ds : list element) : Prop :=
  forall c u v v', c ∈ cls <$> ds ->
    (u, v) ∈ fetch c (batch_of c ds) -> (u, v') ∈ fetch c (batch_of c ds) ->
    v = v'.

(** The vector of the last pair yielded for the uuid [u], [None] when no
    pair was yielded for it. *)
Definition last_reported (u : Any) (ps : list (Any * option (list scalar)))
    : option (list scalar) :=
  match last (filter (fun p => p.1 = u) ps) with
  | Some p => p.2
  | None => None
  end.

(** The batch-fetch of the base class: one retrieval per element of the
    batch, the pairs yielded in the order the retrievals complete, which is
    any order. *)
Definition completes_in_any_order (fetch : fetcher) (ds : list element)
    : Prop :=
  forall c, c ∈ cls <$> ds ->
    fetch c (batch_of c ds)
    ≡ₚ _uuid_and_vector_from_descriptor <$> batch_of c ds.

End vocabulary.

(** A decidable statement about concrete data, settled by evaluation. *)
Ltac by_evaluation :=
  lazymatch goal with
  | |- ?P => refine (@bool_decide_unpack P _ _); vm_compute; exact I
  end.

(** Splits a membership in a concrete list into its cases. *)
Ltac elem_cases H :=
  repeat (apply elem_of_cons in H as [H|H]); [..|by apply elem_of_nil in H].

(** * Facts about the loops *)

Section for_each_facts.
Context {A St : Type}.
Implicit Types (xs ys : list A) (st : St) (body : St -> A -> result St).

Lemma for_each_app xs ys st body :
  for_each (xs ++ ys) st body = st' ← for_each xs st body; for_each ys st' body.
Proof.
  revert st. induction xs as [|x xs IH]; intros st; simpl; [done|].
  destruct (body st x) as [st'|e]; simpl; [apply IH|done].
Qed.

Lemma for_each_ext xs st body body' :
  (forall st x, body st x = body' st x) ->
  for_each xs st body = for_each xs st body'.
Proof.
  intros Hext. revert st. induction xs as [|x xs IH]; intros st; simpl; [done|].
  rewrite Hext. destruct (body' st x); simpl; [apply IH|done].
Qed.

Lemma for_each_concat {B : Type} (g : B -> list A) (bs : list B) st body :
  for_each bs st (fun st b => for_each (g b) st body)
  = for_each (concat (g <$> bs)) st body.
Proof.
  revert st. induction bs as [|b bs IH]; intros st; simpl; [done|].
  rewrite for_each_app. destruct (for_each (g b) st body); simpl; [apply IH|done].
Qed.

End for_each_facts.

Section grouping_facts.
Context {pytype : Type} `{EqDecision pytype}.
Context {Any : Type} `{Countable Any}.
Context {scalar : Type}.
Implicit Types (d : @DescriptorElement pytype Any scalar).
Implicit Types (ds : list (@DescriptorElement pytype Any scalar)).
Implicit Types (u : Any) (c : pytype).

Lemma enumerate_snoc {A : Type} (xs : list A) (x : A) :
  enumerate (xs ++ [x]) = enumerate xs ++ [(Z.of_nat (length xs), x)].
Proof.
  unfold enumerate. rewrite imap_app. simpl. by rewrite Nat.add_0_r.
Qed.

Lemma group_descriptors_snoc ds d :
  group_descriptors (ds ++ [d])
  = group_step (group_descriptors ds) (Z.of_nat (length ds), d).
Proof.
  unfold group_descriptors. by rewrite enumerate_snoc, fold_left_app.
Qed.

Lemma index_group_descriptors ds :
  index (group_descriptors ds) = Z.of_nat (length ds) - 1.
Proof.
  induction ds as [|d ds _] using rev_ind; [done|].
  rewrite group_descriptors_snoc, length_app. simpl. lia.
Qed.

(** The index map sends a uuid to its last position in the input. *)
Lemma uuid_indices_last ds u z :
  uuid_indices (group_descriptors ds) !! u = Some z
  <-> exists i, z = Z.of_nat i /\ last_occurrence ds u i.
Proof.
  revert z. induction ds as [|d ds IH] using rev_ind; intros z.
  - split; [done|]. by intros (i & _ & (d & ? & _) & _).
  - rewrite group_descriptors_snoc. simpl.
    destruct (decide (uuid d = u)) as [<-|Hne].
    + rewrite lookup_insert_eq. split.
      * intros [= <-]. exists (length ds). split; [done|]. split.
        -- exists d. by rewrite list_lookup_middle.
        -- intros j d' Hj Hd'. apply lookup_lt_Some in Hd'.
           rewrite length_app in Hd'. simpl in Hd'. lia.
      * intros (i & -> & (d' & Hi & _) & Hlast).
        destruct (decide (i = length ds)) as [->|Hi']; [done|].
        exfalso. apply (Hlast (length ds) d); [|by rewrite list_lookup_middle|done].
        apply lookup_lt_Some in Hi. rewrite length_app in Hi. simpl in Hi. lia.
    + rewrite lookup_insert_ne by done. rewrite IH. split.
      * intros (i & -> & (d' & Hi & Hu) & Hlast). exists i. split; [done|].
        split; [exists d'; split; [by apply lookup_app_l_Some|done]|].
        intros j d'' Hj [[_ ?]|[_ <-]]%lookup_snoc_Some; [by eapply Hlast|done].
      * intros (i & -> & (d' & Hi & Hu) & Hlast). exists i. split; [done|].
        apply lookup_snoc_Some in Hi as [[Hlt Hi]|[_ <-]]; [|done].
        split; [by exists d'|].
        intros j d'' Hj Hd''. eapply Hlast; [done|]. by apply lookup_app_l_Some.
Qed.

Lemma uuid_indices_below ds :
  indices_below (uuid_indices (group_descriptors ds)) (length ds).
Proof.
  intros u z (i & -> & (d & Hi & _) & _)%uuid_indices_last.
  apply lookup_lt_Some in Hi. lia.
Qed.

(** Every uuid of the input has an index, and only those have one. *)
Lemma uuid_indices_is_Some ds u :
  is_Some (uuid_indices (group_descriptors ds) !! u) <-> u ∈ uuid <$> ds.
Proof.
  induction ds as [|d ds IH] using rev_ind.
  - split; [by intros [? ?]|by intros ?%elem_of_nil].
  - rewrite group_descriptors_snoc, fmap_app, elem_of_app. simpl.
    rewrite lookup_insert_is_Some, IH, list_elem_of_singleton.
    destruct (decide (uuid d = u)); naive_solver.
Qed.

Lemma last_occurrence_NoDup ds i d :
  NoDup (uuid <$> ds) -> ds !! i = Some d -> last_occurrence ds (uuid d) i.
Proof.
  intros Hnd Hi. split; [by exists d|]. intros j d' Hj Hd' Heq.
  assert (i = j); [|lia].
  eapply NoDup_lookup; [done| |]; rewrite list_lookup_fmap.
  - by rewrite Hi.
  - rewrite Hd'. simpl. by rewrite Heq.
Qed.

Lemma last_occurrence_inj ds u u' i :
  last_occurrence ds u i -> last_occurrence ds u' i -> u = u'.
Proof. intros [(d & Hd & <-) _] [(d' & Hd' & <-) _]. congruence. Qed.

End grouping_facts.

Section ordered_dict_facts.
Context {K V : Type} `{EqDecision K}.
Implicit Types (d : dict K V) (k : K) (v : V).

Lemma dict_get_None d k : dict_get d k = None <-> k ∉ dict_keys d.
Proof.
  unfold dict_keys. induction d as [|[k' v'] d IH]; simpl.
  - split; [intros _; apply not_elem_of_nil|done].
  - rewrite not_elem_of_cons. destruct (decide (k' = k)); naive_solver.
Qed.

Lemma elem_of_dict_get d k v :
  NoDup (dict_keys d) -> (k, v) ∈ d <-> dict_get d k = Some v.
Proof.
  unfold dict_keys. induction d as [|[k' v'] d IH]; simpl.
  - intros _. split; [by intros ?%elem_of_nil|done].
  - intros [Hk' Hnd]%NoDup_cons. rewrite elem_of_cons, (IH Hnd).
    destruct (decide (k' = k)) as [->|Hne].
    + split; [|naive_solver]. intros [[= ->]|Hget]; [done|].
      exfalso. apply Hk'. apply (list_elem_of_fmap_2 fst d (k, v)).
      by apply IH.
    + naive_solver.
Qed.

Lemma dict_get_set d k v k' :
  dict_get (dict_set d k v) k' = if decide (k = k') then Some v else dict_get d k'.
Proof.
  induction d as [|[k0 v0] d IH]; simpl.
  - by destruct (decide (k = k')).
  - destruct (decide (k0 = k)) as [->|Hne]; simpl.
    + by destruct (decide (k = k')).
    + rewrite IH. destruct (decide (k0 = k')) as [->|]; [|done].
      by rewrite decide_False by done.
Qed.

Lemma dict_get_remove d k k' :
  NoDup (dict_keys d) ->
  dict_get (dict_remove d k) k' = if decide (k = k') then None else dict_get d k'.
Proof.
  unfold dict_keys. induction d as [|[k0 v0] d IH]; simpl.
  - by destruct (decide (k = k')).
  - intros [Hk0 Hnd]%NoDup_cons. destruct (decide (k0 = k)) as [->|Hne]; simpl.
    + destruct (decide (k = k')) as [->|]; [|done]. by apply dict_get_None.
    + rewrite (IH Hnd). destruct (decide (k0 = k')) as [->|]; [|done].
      by rewrite decide_False by done.
Qed.

Lemma dict_keys_remove d k :
  NoDup (dict_keys d) -> NoDup (dict_keys (dict_remove d k)).
Proof.
  unfold dict_keys. induction d as [|[k0 v0] d IH]; simpl; [done|].
  intros [Hk0 Hnd]%NoDup_cons. destruct (decide (k0 = k)); [done|].
  simpl. apply NoDup_cons. split; [|by apply IH].
  intros Hin. apply dict_get_None in Hk0. 
  assert (dict_get (dict_remove d k) k0 = None) as Hn.
  { rewrite dict_get_remove by done. by destruct (decide (k = k0)). }
  by apply dict_get_None in Hn.
Qed.

End ordered_dict_facts.

Section batch_facts.
Context {pytype : Type} `{EqDecision pytype}.
Context {Any : Type} `{Countable Any}.
Context {scalar : Type}.
Implicit Types (d : @DescriptorElement pytype Any scalar).
Implicit Types (ds : list (@DescriptorElement pytype Any scalar)).
Implicit Types (c k : pytype).

Lemma dict_get_defaultdict_append
    (bd : dict pytype (list (@DescriptorElement pytype Any scalar))) k d c :
  dict_get (defaultdict_append bd k d) c
  = if decide (c = k) then Some (default [] (dict_get bd k) ++ [d])
    else dict_get bd c.
Proof.
  induction bd as [|[k0 l0] bd IH]; simpl.
  - destruct (decide (k = c)) as [->|]; [by rewrite decide_True|].
    by rewrite decide_False.
  - destruct (decide (k0 = k)) as [->|Hne]; simpl.
    + destruct (decide (k = c)) as [->|]; [by rewrite decide_True|].
      by rewrite decide_False.
    + rewrite IH. destruct (decide (k0 = c)) as [->|]; [|done].
      by rewrite decide_False.
Qed.

Lemma dict_keys_defaultdict_append
    (bd : dict pytype (list (@DescriptorElement pytype Any scalar))) k d :
  NoDup (dict_keys bd) -> NoDup (dict_keys (defaultdict_append bd k d)).
Proof.
  unfold dict_keys. induction bd as [|[k0 l0] bd IH]; simpl.
  - intros _. apply NoDup_singleton.
  - intros [Hk0 Hnd]%NoDup_cons. destruct (decide (k0 = k)) as [->|Hne]; simpl.
    + by apply NoDup_cons.
    + apply NoDup_cons. split; [|by apply IH].
      intros Hin. apply dict_get_None in Hk0.
      assert (dict_get (defaultdict_append bd k d) k0 = None) as Hn.
      { rewrite dict_get_defaultdict_append. by rewrite decide_False. }
      by apply dict_get_None in Hn.
Qed.

Lemma batch_of_nil ds c : c ∉ cls <$> ds -> batch_of c ds = [].
Proof.
  unfold batch_of. induction ds as [|d ds IH]; simpl; [done|].
  intros [Hne Hnin]%not_elem_of_cons.
  rewrite filter_cons_False by done. by apply IH.
Qed.

Lemma batch_dictionary_NoDup ds :
  NoDup (dict_keys (batch_dictionary (group_descriptors ds))).
Proof.
  induction ds as [|d ds IH] using rev_ind; [apply NoDup_nil_2|].
  rewrite group_descriptors_snoc. simpl. by apply dict_keys_defaultdict_append.
Qed.

Lemma batch_dictionary_get ds c :
  dict_get (batch_dictionary (group_descriptors ds)) c
  = if decide (c ∈ cls <$> ds) then Some (batch_of c ds) else None.
Proof.
  revert c. induction ds as [|d ds IH] using rev_ind; intros c.
  - by destruct (decide (c ∈ cls <$> [])) as [?%elem_of_nil|].
  - rewrite group_descriptors_snoc. simpl.
    rewrite dict_get_defaultdict_append, !IH. unfold batch_of.
    rewrite filter_app, fmap_app. simpl.
    destruct (decide (c = cls d)) as [->|Hne].
    + rewrite (decide_True (P := cls d ∈ _ ++ _))
        by (apply elem_of_app; right; by apply list_elem_of_singleton).
      rewrite filter_cons_True by done. f_equal. f_equal.
      destruct (decide (cls d ∈ cls <$> ds)) as [|Hnin]; [done|]. simpl.
      symmetry. by apply batch_of_nil.
    + rewrite filter_cons_False by done. rewrite app_nil_r.
      destruct (decide (c ∈ cls <$> ds)).
      * rewrite decide_True; [done|apply elem_of_app; by left].
      * rewrite decide_False; [done|].
        intros [?|?%list_elem_of_singleton]%elem_of_app; done.
Qed.

End batch_facts.

Section retrieval_facts.
Context {pytype : Type} `{EqDecision pytype}.
Context {Any : Type} `{Countable Any}.
Context {scalar : Type}.
Implicit Types (d : @DescriptorElement pytype Any scalar).
Implicit Types (ds : list (@DescriptorElement pytype Any scalar)).
Implicit Types (c : pytype) (u : Any) (idx : gmap Any Z).
Implicit Types (v : option (list scalar)) (ov res : list (option (list scalar))).
Implicit Types (p : Any * option (list scalar)).
Implicit Types (ps : list (Any * option (list scalar))).
Implicit Types (fetch : pytype -> list (@DescriptorElement pytype Any scalar)
                        -> list (Any * option (list scalar))).

(** The groups of the first loop: one per class met, holding the elements of
    that class. *)
Lemma elem_of_batch_dictionary ds c b :
  (c, b) ∈ batch_dictionary (group_descriptors ds)
  <-> c ∈ cls <$> ds /\ b = batch_of c ds.
Proof.
  rewrite elem_of_dict_get by apply batch_dictionary_NoDup.
  rewrite batch_dictionary_get.
  destruct (decide (c ∈ cls <$> ds)); naive_solver.
Qed.

Lemma elem_of_concat {A : Type} (x : A) (ls : list (list A)) :
  x ∈ concat ls <-> exists l, x ∈ l /\ l ∈ ls.
Proof.
  induction ls as [|l ls IH]; simpl.
  - split; [by intros ?%elem_of_nil|by intros (l & _ & ?%elem_of_nil)].
  - rewrite elem_of_app, IH. split.
    + intros [Hx|(l' & Hx & Hl')]; [exists l|exists l']; split; try done;
        [by left|by right].
    + intros (l' & Hx & [->|Hl']%elem_of_cons); [by left|right; by exists l'].
Qed.

Lemma elem_of_fetched fetch ds p :
  p ∈ fetched fetch ds
  <-> exists c, c ∈ cls <$> ds /\ p ∈ fetch c (batch_of c ds).
Proof.
  unfold fetched. rewrite elem_of_concat. split.
  - intros (l & Hp & ([c b] & -> & Hcb)%list_elem_of_fmap).
    apply elem_of_batch_dictionary in Hcb as [Hc ->]. by exists c.
  - intros (c & Hc & Hp). exists (fetch c (batch_of c ds)). split; [done|].
    apply list_elem_of_fmap. exists (c, batch_of c ds). split; [done|].
    by apply elem_of_batch_dictionary.
Qed.

Lemma get_many_vectors_unfold fetch ds :
  get_many_vectors fetch ds
  = for_each (fetched fetch ds) (replicate (length ds) None)
      (store_vector (uuid_indices (group_descriptors ds))).
Proof.
  unfold get_many_vectors, fetched, list_repeat.
  rewrite index_group_descriptors.
  replace (Z.to_nat (Z.of_nat (length ds) - 1 + 1)) with (length ds) by lia.
  rewrite <- (for_each_concat (fun e => fetch e.1 e.2)).
  apply for_each_ext. by intros ov [c b].
Qed.

Lemma store_vector_Ok idx ov u v z :
  idx !! u = Some z -> 0 <= z < Z.of_nat (length ov) ->
  store_vector idx ov (u, v) = Ok (<[Z.to_nat z := v]> ov).
Proof.
  intros Hu Hz. unfold store_vector, getitem, list_setitem. rewrite Hu. simpl.
  rewrite (proj2 (Z.ltb_ge z 0)) by lia.
  rewrite (proj2 (Z.leb_le 0 z)), (proj2 (Z.ltb_lt z _)) by lia. done.
Qed.

Lemma store_vector_KeyError idx ov u v :
  idx !! u = None -> store_vector idx ov (u, v) = Raise KeyError.
Proof. intros Hu. unfold store_vector, getitem. by rewrite Hu. Qed.

Lemma store_vector_length idx ov p res :
  store_vector idx ov p = Ok res -> length res = length ov.
Proof.
  destruct p as [u v]. unfold store_vector, getitem, list_setitem.
  destruct (idx !! u) as [z|]; simpl; [|done].
  destruct (_ && _); [|done]. intros [= <-]. apply length_insert.
Qed.

Lemma for_each_store_length idx ps ov res :
  for_each ps ov (store_vector idx) = Ok res -> length res = length ov.
Proof.
  revert ov. induction ps as [|p ps IH]; intros ov; simpl.
  - by intros [= <-].
  - destruct (store_vector idx ov p) as [ov'|] eqn:Hp; simpl; [|done].
    intros ->%IH. by eapply store_vector_length.
Qed.

Lemma writes_length idx ps ov : length (writes idx ps ov) = length ov.
Proof.
  unfold writes. revert ov. induction ps as [|p ps IH]; intros ov; simpl; [done|].
  rewrite IH. destruct (idx !! p.1); [apply length_insert|done].
Qed.

(** The second loop either performs every write or stops at the first pair
    whose key has no index. *)
Lemma for_each_store_Ok idx ps ov :
  indices_below idx (length ov) ->
  (forall p, p ∈ ps -> is_Some (idx !! p.1)) ->
  for_each ps ov (store_vector idx) = Ok (writes idx ps ov).
Proof.
  unfold writes. revert ov.
  induction ps as [|[u v] ps IH]; intros ov Hb Hk; cbn [for_each fold_left].
  - done.
  - destruct (Hk (u, v)) as [z Hz]; [by left|]. simpl in Hz.
    rewrite (store_vector_Ok _ _ _ _ z) by eauto. simpl. rewrite Hz.
    apply IH; [by rewrite length_insert|]. intros p Hp. apply Hk. by right.
Qed.

Lemma for_each_store_KeyError idx ps ov :
  indices_below idx (length ov) ->
  (exists p, p ∈ ps /\ idx !! p.1 = None) ->
  for_each ps ov (store_vector idx) = Raise KeyError.
Proof.
  revert ov.
  induction ps as [|[u v] ps IH]; intros ov Hb (p & Hp & Hnone); cbn [for_each].
  - by apply elem_of_nil in Hp.
  - destruct (idx !! u) as [z|] eqn:Hz.
    + rewrite (store_vector_Ok _ _ _ _ z) by eauto. simpl.
      apply IH; [by rewrite length_insert|].
      apply elem_of_cons in Hp as [->|Hp]; [simpl in Hnone; congruence|eauto].
    + by rewrite store_vector_KeyError.
Qed.

Lemma for_each_store_inv idx ps ov res :
  indices_below idx (length ov) ->
  for_each ps ov (store_vector idx) = Ok res ->
  (forall p, p ∈ ps -> is_Some (idx !! p.1)) /\ res = writes idx ps ov.
Proof.
  intros Hb Hres.
  assert (forall p, p ∈ ps -> is_Some (idx !! p.1)) as Hk.
  { intros p Hp. destruct (idx !! p.1) eqn:Hn; [done|].
    rewrite for_each_store_KeyError in Hres; [done|done|eauto]. }
  split; [done|]. rewrite for_each_store_Ok in Hres by done. congruence.
Qed.

(** A slot no pair is addressed to keeps its value. *)
Lemma writes_lookup_untouched idx ps ov i :
  indices_below idx (length ov) ->
  (forall p, p ∈ ps -> idx !! p.1 <> Some (Z.of_nat i)) ->
  writes idx ps ov !! i = ov !! i.
Proof.
  unfold writes. revert ov. induction ps as [|[u v] ps IH]; intros ov Hb Hno; simpl.
  - done.
  - assert (forall p, p ∈ ps -> idx !! p.1 <> Some (Z.of_nat i)) as Hno'.
    { intros p Hp. apply Hno. by right. }
    destruct (idx !! u) as [z|] eqn:Hz; [|by apply IH].
    rewrite IH by (by rewrite ?length_insert).
    apply list_lookup_insert_ne. intros <-.
    apply (Hno (u, v)); [by left|]. simpl. rewrite Hz. f_equal.
    destruct (Hb u z Hz). lia.
Qed.

(** A slot that pairs are addressed to, all of them with the vector [v],
    ends up holding [v]. *)
Lemma writes_lookup_written idx ps ov i v :
  indices_below idx (length ov) ->
  (exists u, (u, v) ∈ ps /\ idx !! u = Some (Z.of_nat i)) ->
  (forall u v', (u, v') ∈ ps -> idx !! u = Some (Z.of_nat i) -> v' = v) ->
  writes idx ps ov !! i = Some v.
Proof.
  unfold writes. intros Hb. induction ps as [|[u' v'] ps IH] using rev_ind.
  - by intros (u & ?%elem_of_nil & _).
  - intros (u & Hin & Hu) Hall. rewrite fold_left_app. simpl.
    destruct (idx !! u') as [z|] eqn:Hz.
    + destruct (decide (z = Z.of_nat i)) as [->|Hne].
      * rewrite Nat2Z.id. rewrite (Hall u' v'); [|set_solver|done].
        apply list_lookup_insert_eq. fold (writes idx ps ov).
        rewrite writes_length. destruct (Hb u' _ Hz). lia.
      * rewrite list_lookup_insert_ne.
        2:{ intros <-. destruct (Hb u' z Hz). lia. }
        apply IH; [|intros; eapply Hall; [|done]; set_solver].
        exists u. split; [|done].
        apply elem_of_app in Hin as [?|[=]%list_elem_of_singleton]; [done|].
        congruence.
    + apply IH; [|intros; eapply Hall; [|done]; set_solver].
      exists u. split; [|done].
      apply elem_of_app in Hin as [?|[=]%list_elem_of_singleton]; [done|].
      congruence.
Qed.

End retrieval_facts.

(** * Batched retrieval: the properties *)

Section retrieval_theorems.
Context {pytype : Type} `{EqDecision pytype}.
Context {Any : Type} `{Countable Any}.
Context {scalar : Type}.
Implicit Types (d : @DescriptorElement pytype Any scalar).
Implicit Types (ds : list (@DescriptorElement pytype Any scalar)).
Implicit Types (c : pytype) (u : Any).
Implicit Types (v : option (list scalar)) (ov res : list (option (list scalar))).
Implicit Types (fetch : pytype -> list (@DescriptorElement pytype Any scalar)
                        -> list (Any * option (list scalar))).

Lemma answers_own_batch_within fetch ds :
  answers_own_batch fetch ds -> answers_within fetch ds.
Proof.
  intros Hown c p Hc Hp.
  destruct (list_elem_of_fmap_1 _ _ _ (Hown c p Hc Hp)) as (d & -> & Hd).
  apply list_elem_of_fmap_2. by apply list_elem_of_filter in Hd as [_ ?].
Qed.

(** When every yielded key belongs to the input, the call returns the list
    of all writes applied to [[None] * N]. *)
Lemma get_many_vectors_Ok fetch ds :
  answers_within fetch ds ->
  get_many_vectors fetch ds
  = Ok (writes (uuid_indices (group_descriptors ds)) (fetched fetch ds)
          (replicate (length ds) None)).
Proof.
  intros Hin. rewrite get_many_vectors_unfold. apply for_each_store_Ok.
  - rewrite length_replicate. apply uuid_indices_below.
  - intros p (c & Hc & Hp)%elem_of_fetched.
    apply uuid_indices_is_Some. by eapply Hin.
Qed.

Lemma get_many_vectors_inv fetch ds res :
  get_many_vectors fetch ds = Ok res ->
  res = writes (uuid_indices (group_descriptors ds)) (fetched fetch ds)
          (replicate (length ds) None).
Proof.
  rewrite get_many_vectors_unfold. intros Hres.
  apply for_each_store_inv in Hres as [_ ->]; [done|].
  rewrite length_replicate. apply uuid_indices_below.
Qed.

(** A slot that is not the last occurrence of its uuid is never written. *)
Lemma writes_earlier_occurrence fetch ds u i j d :
  last_occurrence ds u j -> (i < j)%nat -> ds !! i = Some d -> uuid d = u ->
  writes (uuid_indices (group_descriptors ds)) (fetched fetch ds)
    (replicate (length ds) None) !! i = Some None.
Proof.
  intros Hj Hij Hi Hu. rewrite writes_lookup_untouched.
  - apply lookup_replicate_2. by eapply lookup_lt_Some.
  - rewrite length_replicate. apply uuid_indices_below.
  - intros p _ Hp. apply uuid_indices_last in Hp as (i' & ->%Nat2Z.inj & [(d' & Hd' & Hu') Hlast]).
    destruct Hj as [(dj & Hdj & Hudj) _].
    apply (Hlast j dj); [done..|]. congruence.
Qed.

(** With distinct uuids and batch-fetches that answer for their own batch,
    once per uuid, slot [i] holds what the batch-fetch of the class of the
    [i]-th element reports for it. *)
Lemma get_many_vectors_slots fetch ds :
  NoDup (uuid <$> ds) -> answers_own_batch fetch ds -> answers_once fetch ds ->
  exists res,
    get_many_vectors fetch ds = Ok res /\ length res = length ds /\
    forall i d, ds !! i = Some d ->
      (forall v, (uuid d, v) ∈ fetch (cls d) (batch_of (cls d) ds) ->
         res !! i = Some v) /\
      ((forall v, (uuid d, v) ∉ fetch (cls d) (batch_of (cls d) ds)) ->
         res !! i = Some None).
Proof.
  intros Hnd Hown Honce. eexists. split; [|split].
  - apply get_many_vectors_Ok. by apply answers_own_batch_within.
  - by rewrite writes_length, length_replicate.
  - intros i d Hi.
    assert (Hbelow := uuid_indices_below ds).
    rewrite <- (length_replicate (length ds) (@None (list scalar))) in Hbelow.
    assert (forall u v, (u, v) ∈ fetched fetch ds ->
              uuid_indices (group_descriptors ds) !! u = Some (Z.of_nat i) ->
              (uuid d, v) ∈ fetch (cls d) (batch_of (cls d) ds)) as Hwriter.
    { intros u v (c & Hc & Hp)%elem_of_fetched Hu.
      apply uuid_indices_last in Hu as (i' & <-%Nat2Z.inj & Hlast).
      assert (u = uuid d) as ->.
      { eapply last_occurrence_inj; [done|]. by apply last_occurrence_NoDup. }
      destruct (list_elem_of_fmap_1 _ _ _ (Hown c _ Hc Hp)) as (d' & Hu' & Hd').
      simpl in Hu'. apply list_elem_of_filter in Hd' as [<- Hd'].
      apply list_elem_of_lookup in Hd' as [i' Hi'].
      assert (i = i') as <-.
      { eapply NoDup_lookup; [done| |]; rewrite list_lookup_fmap.
        - by rewrite Hi.
        - rewrite Hi'. simpl. by rewrite Hu'. }
      by replace d' with d in * by congruence. }
    split.
    + intros v Hv. apply writes_lookup_written; [done| |].
      * exists (uuid d). split.
        -- apply elem_of_fetched. exists (cls d). split; [|done].
           apply list_elem_of_fmap_2. by eapply list_elem_of_lookup_2.
        -- apply uuid_indices_last. exists i. split; [done|].
           by apply last_occurrence_NoDup.
      * intros u v' Hin Hu. eapply Honce; [|by eapply Hwriter|done].
        apply list_elem_of_fmap_2. by eapply list_elem_of_lookup_2.
    + intros Hnone. rewrite writes_lookup_untouched; [|done|].
      * apply lookup_replicate_2. by eapply lookup_lt_Some.
      * intros [u v] Hin Hu. eapply Hnone, Hwriter; done.
Qed.


(** With distinct uuids and the batch-fetch of the base class, whatever the
    order in which its retrievals complete, [get_many_vectors] returns the
    vector of every element, in input order. *)
Theorem get_many_vectors_default_fetch fetch ds :
  NoDup (uuid <$> ds) -> completes_in_any_order fetch ds ->
  get_many_vectors fetch ds = Ok (vector <$> ds).
Proof.
  intros Hnd Hdefault.
  assert (forall c p, c ∈ cls <$> ds -> p ∈ fetch c (batch_of c ds) ->
            exists d, d ∈ ds /\ cls d = c /\ p = (uuid d, vector d)) as Hpair.
  { intros c p Hc Hp. rewrite (Hdefault c Hc) in Hp.
    apply list_elem_of_fmap in Hp as (d & -> & [<- Hd]%list_elem_of_filter).
    by exists d. }
  assert (forall d d', d ∈ ds -> d' ∈ ds -> uuid d = uuid d' -> d = d') as Hinj.
  { intros d d' [i Hi]%list_elem_of_lookup [i' Hi']%list_elem_of_lookup Hu.
    assert (i = i') as <-; [|congruence].
    eapply NoDup_lookup; [done| |]; rewrite list_lookup_fmap.
    - by rewrite Hi.
    - rewrite Hi'. simpl. by rewrite Hu. }
  destruct (get_many_vectors_slots fetch ds) as (res & -> & Hlen & Hslots).
  - done.
  - intros c p Hc Hp. destruct (Hpair c p Hc Hp) as (d & Hd & <- & ->).
    apply (list_elem_of_fmap_2 uuid). by apply list_elem_of_filter.
  - intros c u v v' Hc Hv Hv'.
    destruct (Hpair c _ Hc Hv) as (d & Hd & _ & [= -> ->]).
    destruct (Hpair c _ Hc Hv') as (d' & Hd' & _ & [= Hu ->]).
    by rewrite (Hinj d d' Hd Hd' Hu).
  - f_equal. apply list_eq. intros i. rewrite list_lookup_fmap.
    destruct (ds !! i) as [d|] eqn:Hi; simpl.
    + apply (Hslots i d Hi). rewrite Hdefault.
      * apply (list_elem_of_fmap_2 _uuid_and_vector_from_descriptor).
        apply list_elem_of_filter. split; [done|].
        by eapply list_elem_of_lookup_2.
      * apply list_elem_of_fmap_2. by eapply list_elem_of_lookup_2.
    + apply lookup_ge_None. apply lookup_ge_None in Hi. lia.
Qed.

(** C3, as the code has it: a pair whose key is not the uuid of any element
    of the input stops the call with [KeyError]; no list is returned. *)
Theorem get_many_vectors_foreign_key fetch ds c p :
  c ∈ cls <$> ds -> p ∈ fetch c (batch_of c ds) -> p.1 ∉ uuid <$> ds ->
  get_many_vectors fetch ds = Raise KeyError.
Proof.
  intros Hc Hp Hforeign. rewrite get_many_vectors_unfold.
  apply for_each_store_KeyError.
  - rewrite length_replicate. apply uuid_indices_below.
  - exists p. split; [apply elem_of_fetched; eauto|].
    apply eq_None_not_Some. by rewrite uuid_indices_is_Some.
Qed.

(** C4: when a uuid occurs more than once, the index map holds its last
    position [j]; every pair yielded for that uuid is stored in slot [j];
    and in the list that is returned the slots of the earlier occurrences
    are [None], while slot [j] holds the vector reported for the uuid. *)
Theorem get_many_vectors_duplicate_uuid fetch ds u j :
  last_occurrence ds u j ->
  uuid_indices (group_descriptors ds) !! u = Some (Z.of_nat j) /\
  (forall ov v, length ov = length ds ->
     store_vector (uuid_indices (group_descriptors ds)) ov (u, v)
     = Ok (<[j := v]> ov)) /\
  (forall res i d,
     get_many_vectors fetch ds = Ok res ->
     (i < j)%nat -> ds !! i = Some d -> uuid d = u -> res !! i = Some None) /\
  (answers_within fetch ds ->
   exists res,
     get_many_vectors fetch ds = Ok res /\
     (forall i d, (i < j)%nat -> ds !! i = Some d -> uuid d = u ->
        res !! i = Some None) /\
     (forall v,
        (u, v) ∈ fetched fetch ds ->
        (forall v', (u, v') ∈ fetched fetch ds -> v' = v) ->
        res !! j = Some v)).
Proof.
  intros Hlast.
  assert (uuid_indices (group_descriptors ds) !! u = Some (Z.of_nat j)) as Hidx.
  { apply uuid_indices_last. by exists j. }
  assert (j < length ds)%nat as Hj.
  { destruct Hlast as [(d & Hd & _) _]. by eapply lookup_lt_Some. }
  split; [done|]. split; [|split].
  - intros ov v Hlen. rewrite (store_vector_Ok _ _ _ _ (Z.of_nat j)); [|done|lia].
    by rewrite Nat2Z.id.
  - intros res i d ->%get_many_vectors_inv Hij Hi Hu.
    by eapply writes_earlier_occurrence.
  - intros Hin. eexists. split; [by apply get_many_vectors_Ok|]. split.
    + intros i d Hij Hi Hu. by eapply writes_earlier_occurrence.
    + intros v Hv Hall. apply writes_lookup_written.
      * rewrite length_replicate. apply uuid_indices_below.
      * by exists u.
      * intros u' v' Hv' Hu'. apply Hall.
        apply uuid_indices_last in Hu' as (j' & <-%Nat2Z.inj & Hlast').
        by rewrite (last_occurrence_inj _ _ _ _ Hlast Hlast').
Qed.

(** C5: the list [get_many_vectors] returns has as many entries as the input
    has elements; the empty input gives the empty list; and the call does
    return when every key the batch-fetches yield is the uuid of an element
    of the input. *)
Theorem get_many_vectors_length fetch ds :
  (forall res, get_many_vectors fetch ds = Ok res -> length res = length ds) /\
  get_many_vectors fetch [] = Ok [] /\
  (answers_within fetch ds ->
   exists res, get_many_vectors fetch ds = Ok res /\ length res = length ds).
Proof.
  split; [|split].
  - intros res ->%get_many_vectors_inv.
    by rewrite writes_length, length_replicate.
  - done.
  - intros Hin. eexists. split; [by apply get_many_vectors_Ok|].
    by rewrite writes_length, length_replicate.
Qed.

End retrieval_theorems.

(** * Identity of an element: the properties *)

Section identity_theorems.
Context {pytype : Type} `{EqDecision pytype}.
Context {Any : Type} `{Countable Any}.
Context {scalar : Type}.
Implicit Types (a b self e : @DescriptorElement pytype Any scalar).

Lemma forallb_zip_Forall2 (scalar_eqb : scalar -> scalar -> bool)
    (v w : list scalar) :
  length v = length w ->
  forallb (fun p => scalar_eqb p.1 p.2) (zip v w) = true
  <-> Forall2 (fun x y => scalar_eqb x y = true) v w.
Proof.
  revert w. induction v as [|x v IH]; intros [|y w]; simpl; try done.
  intros [= Hlen]. rewrite andb_true_iff, (IH w Hlen). split.
  - intros [??]. by constructor.
  - by intros [??]%Forall2_cons.
Qed.

Lemma array_equal_elementwise (scalar_eqb : scalar -> scalar -> bool)
    (x y : option (list scalar)) :
  numpy.array_equal scalar_eqb x y = true <-> elementwise_equal scalar_eqb x y.
Proof.
  destruct x as [v|], y as [w|]; simpl; try done.
  destruct (decide (length v = length w)) as [Hlen|Hlen].
  - by apply forallb_zip_Forall2.
  - split; [done|]. by intros ?%Forall2_length.
Qed.

(** C1: [a == b] holds exactly when the two vectors agree entry by entry;
    the type label, the uuid and the class play no part (any two elements
    with the same vectors compare the same way); an element without a
    vector equals exactly the elements without a vector; and an element
    never equals a value that is not an element. *)
Theorem eq_is_vector_equality (scalar_eqb : scalar -> scalar -> bool) a b :
  (__eq__ scalar_eqb a (Element b) = true
   <-> elementwise_equal scalar_eqb (vector a) (vector b)) /\
  (forall a' b', vector a' = vector a -> vector b' = vector b ->
     __eq__ scalar_eqb a' (Element b') = __eq__ scalar_eqb a (Element b)) /\
  (vector a = None ->
     (__eq__ scalar_eqb a (Element b) = true <-> vector b = None)) /\
  (forall o : Any, __eq__ scalar_eqb a (Other o) = false).
Proof.
  split; [apply array_equal_elementwise|]. split; [|split].
  - intros a' b' Ha Hb. simpl. by rewrite Ha, Hb.
  - intros Ha. simpl. rewrite Ha. by destruct (vector b).
  - done.
Qed.

(** C6: [hash(a)] is [hash(a.uuid())], so two elements with the same uuid
    have the same hash; equal hashes do not make the elements equal, since
    elements with one uuid and different vectors exist in every class. *)
Theorem hash_is_hash_of_uuid (hash : Any -> Z) a b :
  __hash__ hash a = hash (uuid a) /\
  (uuid a = uuid b -> __hash__ hash a = __hash__ hash b) /\
  (forall (scalar_eqb : scalar -> scalar -> bool) (c : pytype) (t u : Any),
     exists a' b' : @DescriptorElement pytype Any scalar,
       cls a' = c /\ cls b' = c /\ uuid a' = u /\ uuid b' = u /\
       __hash__ hash a' = __hash__ hash b' /\
       __eq__ scalar_eqb a' (Element b') = false).
Proof.
  split; [done|]. split; [by unfold __hash__; intros ->|].
  intros scalar_eqb c t u.
  by exists (__init__ c t u None), (__init__ c t u (Some [])).
Qed.

(** C7: restoring the state [e.__getstate__()] gives an element with the
    type label and the uuid of [e]; the state has the two keys
    ["_type_label"] and ["_uuid"] and nothing else, so it carries no
    vector, and the vector of the restored object is not taken from it. *)
Theorem getstate_setstate_identity e self :
  (exists e', __setstate__ self (__getstate__ e) = Ok e' /\
     type e' = type e /\ uuid e' = uuid e /\
     cls e' = cls self /\ vector e' = vector self) /\
  dom (__getstate__ e) = {[ "_type_label"; "_uuid" ]} /\
  (forall k x, __getstate__ e !! k = Some x ->
     (k = "_type_label" /\ x = type e) \/ (k = "_uuid" /\ x = uuid e)).
Proof.
  split; [|split].
  - exists (__init__ (cls self) (type e) (uuid e) (vector self)).
    split; [|done]. unfold __setstate__, __getstate__, getitem.
    rewrite lookup_insert_eq. simpl.
    by rewrite lookup_insert_ne, lookup_singleton_eq.
  - unfold __getstate__. by rewrite dom_insert_L, dom_singleton_L.
  - intros k x. unfold __getstate__.
    rewrite lookup_insert_Some, lookup_singleton_Some. naive_solver.
Qed.

End identity_theorems.

(** * Configuration: the properties *)

Section configuration_theorems.
Context {pytype : Type} {Any : Type} {scalar : Type}.
Implicit Types (h : heap Any) (a b c : loc) (bd : dictobj Any).

Lemma dict_set_fresh (d : dictobj Any) k v :
  k ∉ dict_keys d -> dict_set d k v = d ++ [(k, v)].
Proof.
  unfold dict_keys. induction d as [|[k' v'] d IH]; simpl; [done|].
  intros [Hne Hnin]%not_elem_of_cons.
  rewrite decide_False by done. by rewrite IH.
Qed.

Lemma dict_get_app_fresh (d1 d2 : dictobj Any) k :
  k ∉ dict_keys d1 -> dict_get (d1 ++ d2) k = dict_get d2 k.
Proof.
  unfold dict_keys. induction d1 as [|[k' v'] d1 IH]; simpl; [done|].
  intros [Hne Hnin]%not_elem_of_cons. rewrite decide_False by done. by apply IH.
Qed.

Lemma deref_insert_eq h a (d : dictobj Any) : deref (<[a := d]> h) a = Ok d.
Proof. unfold deref. by rewrite lookup_insert_eq. Qed.

Lemma deref_insert_ne h a b (d : dictobj Any) :
  a <> b -> deref (<[a := d]> h) b = deref h b.
Proof. intros Hne. unfold deref. by rewrite lookup_insert_ne. Qed.

Lemma deref_Some h a (d : dictobj Any) : h !! a = Some d -> deref h a = Ok d.
Proof. intros Ha. unfold deref. by rewrite Ha. Qed.

(** Merging into a dictionary that holds a prefix of [b] copies the rest of
    the entries of [b], and touches no other object. *)
Lemma merge_loop_copies fuel h a b (pre suf : dictobj Any) :
  a <> b -> h !! b = Some (pre ++ suf) -> dict_wf (pre ++ suf) ->
  for_each (dict_keys suf) (<[a := pre]> h) (fun h k =>
    ad ← deref h a;
    bd ← deref h b;
    match dict_get ad k, dict_get bd k with
    | Some (DictRef a'), Some (DictRef b') =>
        smqtk_core.merge_dict fuel a' b' h
    | _, Some v => Ok (<[a := dict_set ad k v]> h)
    | _, None => Raise KeyError
    end)
  = Ok (<[a := pre ++ suf]> h).
Proof.
  intros Hne Hb Hwf. revert pre Hb Hwf.
  induction suf as [|[k v] suf IH]; intros pre Hb Hwf.
  - simpl. by rewrite app_nil_r.
  - cbn [dict_keys fmap list_fmap for_each fst].
    rewrite deref_insert_eq, deref_insert_ne, (deref_Some _ _ _ Hb) by done.
    simpl.
    assert (k ∉ dict_keys pre) as Hk.
    { unfold dict_wf, dict_keys in *. rewrite fmap_app in Hwf.
      apply NoDup_app in Hwf as (_ & Hdisj & _). intros Hin.
      apply (Hdisj k Hin). simpl. by left. }
    rewrite (proj2 (dict_get_None pre k) Hk).
    rewrite dict_get_app_fresh by done. simpl. rewrite decide_True by done.
    simpl. rewrite insert_insert_eq, dict_set_fresh by done.
    replace (pre ++ (k, v) :: suf) with ((pre ++ [(k, v)]) ++ suf)
      by (by rewrite <- app_assoc).
    apply IH; by rewrite <- app_assoc.
Qed.

Lemma merge_dict_into_empty fuel h a b bd :
  a <> b -> h !! a = Some [] -> h !! b = Some bd -> dict_wf bd ->
  smqtk_core.merge_dict (S fuel) a b h = Ok (<[a := bd]> h).
Proof.
  intros Hne Ha Hb Hwf. simpl. rewrite (deref_Some _ _ _ Hb). simpl.
  rewrite <- (insert_id h a []) at 1 by done.
  by apply (merge_loop_copies fuel h a b [] bd).
Qed.


(** C10: [from_config] hands the parent class a new dictionary [c] that
    maps ["type_str"] and ["uuid"] to the two arguments, whatever
    [config_dict] holds under those keys, and agrees with [config_dict] on
    every other key; building it changes no object that existed before, so
    [config_dict] is as it was. *)
Theorem from_config_builds_fresh_mapping (fuel : nat) (config_dict : loc)
    (type_str uuid : Any) (h : heap Any) (cd : dictobj Any) :
  h !! config_dict = Some cd -> dict_wf cd -> (0 < fuel)%nat ->
  exists (c : loc) (h' : heap Any) (co : dictobj Any),
    from_config_c fuel config_dict type_str uuid h = Ok (c, h') /\
    h !! c = None /\ h' !! c = Some co /\
    dict_get co "type_str" = Some (Leaf type_str) /\
    dict_get co "uuid" = Some (Leaf uuid) /\
    (forall k, k <> "type_str" -> k <> "uuid" ->
       dict_get co k = dict_get cd k) /\
    (forall l, l <> c -> h' !! l = h !! l) /\
    h' !! config_dict = Some cd /\
    (forall (Configurable_from_config :
               pytype -> loc -> bool -> heap Any ->
               result (@DescriptorElement pytype Any scalar * heap Any))
            (cl : pytype) (merge_default : bool),
       from_config Configurable_from_config cl fuel config_dict type_str uuid
         merge_default h
       = Configurable_from_config cl c merge_default h').
Proof.
  intros Hcd Hwf Hfuel. destruct fuel as [|fuel]; [lia|].
  set (c := fresh (dom h)).
  assert (h !! c = None) as Hc by (apply not_elem_of_dom, is_fresh).
  assert (c <> config_dict) as Hne by congruence.
  set (co := dict_set (dict_set cd "type_str" (Leaf type_str)) "uuid" (Leaf uuid)).
  assert (from_config_c (S fuel) config_dict type_str uuid h
          = Ok (c, <[c := co]> h)) as Hrun.
  { unfold from_config_c, new_dict. fold c.
    rewrite (merge_dict_into_empty fuel _ c config_dict cd);
      [|done|by rewrite lookup_insert_eq|by rewrite lookup_insert_ne|done].
    cbn [mbind result_bind]. unfold setitem.
    rewrite deref_insert_eq. cbn [mbind result_bind].
    rewrite deref_insert_eq. cbn [mbind result_bind].
    by rewrite !insert_insert_eq. }
  exists c, (<[c := co]> h), co. split; [done|]. split; [done|].
  split; [by rewrite lookup_insert_eq|]. unfold co.
  split; [by rewrite !dict_get_set|]. split; [by rewrite dict_get_set|].
  split; [|split; [|split]].
  - intros k Hk1 Hk2. rewrite !dict_get_set. by rewrite !decide_False.
  - intros l Hl. by rewrite lookup_insert_ne.
  - by rewrite lookup_insert_ne.
  - intros sup cl md. unfold from_config. by rewrite Hrun.
Qed.

End configuration_theorems.

(** * The in-memory set: the write-through cache *)

Section memory_theorems.
Context {pytype : Type} {Any : Type} `{Countable Any} {scalar : Type}.
Context {Store Proto : Type} `{ByteStore Store}.
Context `{Serializer Proto (gmap Any (@DescriptorElement pytype Any scalar))}.
Implicit Types (self s : @MemoryDescriptorSet pytype Any _ _ scalar Store Proto).
Implicit Types (t : gmap Any (@DescriptorElement pytype Any scalar)).

(** After [cacheTable()] has returned on a set with a cache store, the store
    holds the serialized table, and the table is as it was. *)
Lemma cache_table_in_sync self s' :
  is_Some (cache_element self) -> cache_table self = Done s' ->
  cache_in_sync s' /\ _table s' = _table self.
Proof.
  intros [st Hst]. unfold cache_table. rewrite Hst.
  destruct (setBytes st _) as [st'|] eqn:Hset; simpl; [|done].
  intros [= <-]. split; [|done]. exists st'. simpl. split; [done|].
  apply getBytes_setBytes in Hset. split.
  - apply not_true_is_false. rewrite isEmpty_getBytes, Hset.
    apply dumps_nonempty.
  - rewrite Hset. apply loads_dumps.
Qed.

Lemma remove_keys_elem t ks t' :
  remove_keys t ks = Done t' -> forall k, k ∈ ks -> t' !! k = None.
Proof.
  revert t. induction ks as [|k0 ks IH]; intros t; simpl.
  - intros _ k ?%elem_of_nil. done.
  - unfold remove_key. destruct (t !! k0) eqn:Hk0; simpl; [|done].
    intros Hrest k [->|Hk]%elem_of_cons; [|by eapply IH].
    destruct (decide (k0 ∈ ks)) as [|Hfresh]; [by eapply IH|].
    clear IH Hk0. revert t Hrest. induction ks as [|k1 ks IH]; intros t; simpl.
    + intros [= <-]. apply lookup_delete_eq.
    + unfold remove_key. destruct (delete k0 t !! k1) eqn:Hk1; simpl; [|done].
      apply not_elem_of_cons in Hfresh as [Hne Hnin]. rewrite delete_delete.
      by apply IH.
Qed.

(** C8: on a set that has a cache store, whenever [addDescriptor],
    [addManyDescriptors], [removeDescriptor], [removeManyDescriptors] or
    [clear] returns, the cache store is not empty and its bytes deserialize
    to the table the set then holds in memory, which is the table the
    operation produced. *)
Theorem memory_set_cache_write_through self :
  is_Some (cache_element self) ->
  (forall d s', add_descriptor self d = Done s' ->
     cache_in_sync s' /\ _table s' = <[uuid d := d]> (_table self)) /\
  (forall ds s', add_many_descriptors self ds = Done s' ->
     cache_in_sync s' /\
     _table s' = fold_left (fun t d => <[uuid d := d]> t) ds (_table self)) /\
  (forall k s', remove_descriptor self k = Done s' ->
     cache_in_sync s' /\ _table s' = delete k (_table self)) /\
  (forall ks s', remove_many_descriptors self ks = Done s' ->
     cache_in_sync s' /\ forall k, k ∈ ks -> _table s' !! k = None) /\
  (forall s', clear self = Done s' -> cache_in_sync s' /\ _table s' = ∅).
Proof.
  intros Hcache. split; [|split; [|split; [|split]]].
  - intros d s' Hrun. by apply cache_table_in_sync in Hrun.
  - intros ds s' Hrun. by apply cache_table_in_sync in Hrun.
  - intros k s'. unfold remove_descriptor, remove_key.
    destruct (_table self !! k); simpl; [|done].
    intros Hrun. by apply cache_table_in_sync in Hrun.
  - intros ks s'. unfold remove_many_descriptors.
    destruct (remove_keys _ ks) as [t|] eqn:Hks; simpl; [|done].
    intros [Hsync ->]%cache_table_in_sync; [|done]. split; [done|]. simpl.
    by eapply remove_keys_elem.
  - intros s' Hrun. by apply cache_table_in_sync in Hrun.
Qed.

End memory_theorems.

(** * Further properties of the batched retrieval *)

Section retrieval_outcomes.
Context {pytype : Type} `{EqDecision pytype}.
Context {Any : Type} `{Countable Any}.
Context {scalar : Type}.
Implicit Types (d : @DescriptorElement pytype Any scalar).
Implicit Types (ds : list (@DescriptorElement pytype Any scalar)).
Implicit Types (c : pytype) (u : Any) (idx : gmap Any Z).
Implicit Types (v : option (list scalar)) (ov res : list (option (list scalar))).
Implicit Types (ps : list (Any * option (list scalar))).
Implicit Types (fetch : pytype -> list (@DescriptorElement pytype Any scalar)
                        -> list (Any * option (list scalar))).

(** The second loop has two outcomes only: every write done, or [KeyError]
    at a pair without index; the list assignment itself never fails. *)
Lemma for_each_store_cases idx ps ov :
  indices_below idx (length ov) ->
  (for_each ps ov (store_vector idx) = Ok (writes idx ps ov) /\
   forall p, p ∈ ps -> is_Some (idx !! p.1)) \/
  (for_each ps ov (store_vector idx) = Raise KeyError /\
   exists p, p ∈ ps /\ idx !! p.1 = None).
Proof.
  intros Hb.
  destruct (decide (Forall (fun p => is_Some (idx !! p.1)) ps)) as [Hall|Hex].
  - left. rewrite Forall_forall in Hall. split; [|done].
    by apply for_each_store_Ok.
  - right. apply not_Forall_Exists in Hex; [|apply _].
    apply Exists_exists in Hex as (p & Hp & Hnone).
    assert (exists p, p ∈ ps /\ idx !! p.1 = None) as Hforeign.
    { exists p. split; [done|]. by apply eq_None_not_Some. }
    split; [|done]. by apply for_each_store_KeyError.
Qed.

(** For batch-fetches that run to their end without raising:
    [get_many_vectors] returns exactly when every key they yield is the uuid
    of an element of the input, and otherwise raises [KeyError] at a key
    that is no uuid of the input. *)
Lemma get_many_vectors_outcome fetch ds :
  (answers_within fetch ds
   <-> exists res, get_many_vectors fetch ds = Ok res) /\
  (forall e, get_many_vectors fetch ds = Raise e ->
     e = KeyError /\
     exists c p, c ∈ cls <$> ds /\ p ∈ fetch c (batch_of c ds) /\
                 p.1 ∉ uuid <$> ds).
Proof.
  assert (indices_below (uuid_indices (group_descriptors ds))
            (length (replicate (length ds) (@None (list scalar))))) as Hb.
  { rewrite length_replicate. apply uuid_indices_below. }
  rewrite get_many_vectors_unfold.
  destruct (for_each_store_cases _ (fetched fetch ds) _ Hb)
    as [[-> Hall]|[-> (p & Hp & Hnone)]].
  - split; [|done]. split; [by eexists|]. intros _ c p Hc Hp.
    apply uuid_indices_is_Some, Hall, elem_of_fetched. eauto.
  - apply elem_of_fetched in Hp as (c & Hc & Hp).
    assert (p.1 ∉ uuid <$> ds) as Hforeign.
    { rewrite <- uuid_indices_is_Some, Hnone. by intros [? ?]. }
    split.
    + split; [|by intros [? ?]]. intros Hin. by destruct (Hforeign (Hin c p Hc Hp)).
    + intros e [= <-]. split; [done|]. by exists c, p.
Qed.

(** A slot holds the vector of the last pair addressed to it, and its first
    value when no pair is. *)
Lemma writes_lookup_last idx ps ov i :
  indices_below idx (length ov) ->
  writes idx ps ov !! i
  = match last (filter (fun p => idx !! p.1 = Some (Z.of_nat i)) ps) with
    | Some p => Some p.2
    | None => ov !! i
    end.
Proof.
  intros Hb. unfold writes. induction ps as [|[u v] ps IH] using rev_ind.
  - done.
  - rewrite fold_left_app, filter_app, last_app. simpl.
    fold (writes idx ps ov).
    destruct (idx !! u) as [z|] eqn:Hz.
    + destruct (decide (z = Z.of_nat i)) as [->|Hne].
      * rewrite filter_cons_True by done. simpl. rewrite Nat2Z.id.
        apply list_lookup_insert_eq. rewrite writes_length.
        destruct (Hb u _ Hz). lia.
      * rewrite filter_cons_False by (simpl; congruence). simpl.
        rewrite list_lookup_insert_ne; [done|].
        intros <-. destruct (Hb u z Hz). lia.
    + rewrite filter_cons_False by (simpl; congruence). done.
Qed.

Lemma filter_none {A : Type} (P : A -> Prop) `{forall x, Decision (P x)}
    (l : list A) :
  (forall x, x ∈ l -> ~ P x) -> filter P l = [].
Proof.
  induction l as [|x l IH]; intros Hno; [done|].
  rewrite filter_cons_False by (apply Hno; by left).
  apply IH. intros y Hy. apply Hno. by right.
Qed.

Lemma last_occurrence_drop ds i d :
  ds !! i = Some d ->
  last_occurrence ds (uuid d) i <-> uuid d ∉ uuid <$> drop (S i) ds.
Proof.
  intros Hi. split.
  - intros [_ Hlast] (d' & Hu & Hj)%list_elem_of_fmap.
    apply list_elem_of_lookup in Hj as [k Hk]. rewrite lookup_drop in Hk.
    apply (Hlast (S i + k)%nat d'); [lia|done|done].
  - intros Hnin. split; [by exists d|]. intros j d' Hij Hj Hu.
    apply Hnin. rewrite <- Hu. apply list_elem_of_fmap_2.
    apply list_elem_of_lookup. exists (j - S i)%nat.
    rewrite lookup_drop. by replace (S i + (j - S i))%nat with j by lia.
Qed.

(** What a returned list holds at every position: [None] at a position
    whose uuid occurs again later in the input, and otherwise the vector of
    the last pair the batch-fetches yielded for the uuid of the position
    ([None] when they yielded none). *)
Theorem get_many_vectors_last_write_wins fetch ds res i d :
  get_many_vectors fetch ds = Ok res -> ds !! i = Some d ->
  res !! i
  = Some (if bool_decide (uuid d ∈ uuid <$> drop (S i) ds) then None
          else last_reported (uuid d) (fetched fetch ds)).
Proof.
  intros ->%get_many_vectors_inv Hi.
  rewrite writes_lookup_last
    by (rewrite length_replicate; apply uuid_indices_below).
  rewrite lookup_replicate_2 by (by eapply lookup_lt_Some).
  case_bool_decide as Hlater.
  - rewrite filter_none; [done|]. intros p _ Hp.
    apply uuid_indices_last in Hp as (i' & <-%Nat2Z.inj & Hlast).
    destruct (Hlast) as [(d' & Hd' & Hu) _].
    assert (d' = d) as -> by congruence. rewrite <- Hu in Hlast.
    by apply last_occurrence_drop in Hlast.
  - apply last_occurrence_drop in Hlater; [|done]. unfold last_reported.
    rewrite (list_filter_iff _ (fun p => p.1 = uuid d)).
    + by destruct (last _).
    + intros p. rewrite uuid_indices_last. split.
      * intros (i' & <-%Nat2Z.inj & Hlast). by eapply last_occurrence_inj.
      * intros ->. by exists i.
Qed.

(** With the batch-fetch of the base class and an input in which elements
    of one uuid hold one vector (an element passed more than once, for
    instance), a repeated uuid gets its vector at its last position only:
    every earlier position of it holds [None]. *)
Theorem get_many_vectors_repeated_uuid fetch ds :
  completes_in_any_order fetch ds ->
  (forall d d', d ∈ ds -> d' ∈ ds -> uuid d = uuid d' -> vector d = vector d') ->
  get_many_vectors fetch ds
  = Ok (imap (fun i d =>
                if bool_decide (uuid d ∈ uuid <$> drop (S i) ds) then None
                else vector d) ds).
Proof.
  intros Hdefault Hsame.
  assert (forall c p, c ∈ cls <$> ds -> p ∈ fetch c (batch_of c ds) ->
            exists d, d ∈ ds /\ p = (uuid d, vector d)) as Hpair.
  { intros c p Hc Hp. rewrite (Hdefault c Hc) in Hp.
    apply list_elem_of_fmap in Hp as (d & -> & [_ Hd]%list_elem_of_filter).
    by exists d. }
  assert (Hb := uuid_indices_below ds).
  rewrite <- (length_replicate (length ds) (@None (list scalar))) in Hb.
  rewrite get_many_vectors_Ok.
  2:{ intros c p Hc Hp. destruct (Hpair c p Hc Hp) as (d & Hd & ->).
      by apply (list_elem_of_fmap_2 uuid). }
  f_equal. apply list_eq. intros i. rewrite list_lookup_imap.
  destruct (ds !! i) as [d|] eqn:Hi; simpl.
  - assert (d ∈ ds) as Hd by (by eapply list_elem_of_lookup_2).
    case_bool_decide as Hlater.
    + rewrite writes_lookup_untouched; [|done|].
      * apply lookup_replicate_2. by eapply lookup_lt_Some.
      * intros p _ Hp.
        apply uuid_indices_last in Hp as (i' & <-%Nat2Z.inj & Hlast).
        destruct (Hlast) as [(d' & Hd' & Hu) _].
        assert (d' = d) as -> by congruence. rewrite <- Hu in Hlast.
        by apply last_occurrence_drop in Hlast.
    + apply last_occurrence_drop in Hlater; [|done].
      apply writes_lookup_written; [done| |].
      * exists (uuid d). split; [|apply uuid_indices_last; by exists i].
        apply elem_of_fetched. exists (cls d).
        split; [by apply list_elem_of_fmap_2|]. rewrite Hdefault.
        -- apply (list_elem_of_fmap_2 _uuid_and_vector_from_descriptor).
           by apply list_elem_of_filter.
        -- by apply list_elem_of_fmap_2.
      * intros u v' (c & Hc & Hp)%elem_of_fetched Hu.
        apply uuid_indices_last in Hu as (i' & <-%Nat2Z.inj & Hlast).
        destruct (Hpair c _ Hc Hp) as (d' & Hd' & [= -> ->]).
        apply Hsame; [done..|]. by eapply last_occurrence_inj.
  - apply lookup_ge_None. rewrite writes_length, length_replicate.
    by apply lookup_ge_None.
Qed.

(** ** The groups of the first loop *)

Lemma defaultdict_append_keys
    (bd : dict pytype (list (@DescriptorElement pytype Any scalar))) c d :
  dict_keys (defaultdict_append bd c d)
  = if decide (c ∈ dict_keys bd) then dict_keys bd else dict_keys bd ++ [c].
Proof.
  unfold dict_keys. induction bd as [|[k l] bd IH].
  - by destruct (decide (c ∈ [])) as [?%elem_of_nil|].
  - cbn [defaultdict_append fmap list_fmap fst].
    destruct (decide (k = c)) as [->|Hne].
    + rewrite decide_True by left. done.
    + cbn [fmap list_fmap fst]. rewrite IH.
      destruct (decide (c ∈ bd.*1)) as [Hin|Hnin].
      * by rewrite decide_True by (by right).
      * rewrite decide_False; [done|].
        intros [?|?]%elem_of_cons; congruence.
Qed.

Lemma defaultdict_append_concat
    (bd : dict pytype (list (@DescriptorElement pytype Any scalar))) c d :
  concat (defaultdict_append bd c d).*2 ≡ₚ concat bd.*2 ++ [d].
Proof.
  induction bd as [|[k l] bd IH]; simpl; [done|].
  destruct (decide (k = c)) as [->|Hne]; simpl.
  - rewrite <- !app_assoc. f_equiv. apply Permutation_app_comm.
  - rewrite IH. by rewrite app_assoc.
Qed.

Lemma elem_of_dict_keys_batch ds c :
  c ∈ dict_keys (batch_dictionary (group_descriptors ds)) <-> c ∈ cls <$> ds.
Proof.
  assert (Hget := batch_dictionary_get ds c).
  destruct (decide (c ∈ cls <$> ds)) as [Hin|Hnin].
  - split; [done|]. intros _.
    destruct (decide (c ∈ dict_keys (batch_dictionary (group_descriptors ds))))
      as [|Hno]; [done|].
    apply dict_get_None in Hno. congruence.
  - split; [|done]. intros Hk. by apply dict_get_None in Hget.
Qed.

(** The first loop hands every element to one group: the groups are the
    classes met, in the order they are first met; the group of a class holds
    the elements of that class in input order and is never empty; and the
    groups together hold the input, every element once. *)
Theorem batch_dictionary_partitions ds :
  dict_keys (batch_dictionary (group_descriptors ds))
  = reverse (remove_dups (reverse (cls <$> ds))) /\
  NoDup (dict_keys (batch_dictionary (group_descriptors ds))) /\
  (forall c b, (c, b) ∈ batch_dictionary (group_descriptors ds)
     <-> c ∈ cls <$> ds /\ b = batch_of c ds) /\
  (forall c b, (c, b) ∈ batch_dictionary (group_descriptors ds) -> b <> []) /\
  concat (batch_dictionary (group_descriptors ds)).*2 ≡ₚ ds.
Proof.
  split; [|split; [|split; [|split]]].
  - induction ds as [|d ds IH] using rev_ind; [done|].
    rewrite group_descriptors_snoc. cbn [batch_dictionary group_step].
    rewrite defaultdict_append_keys, fmap_app, reverse_app. simpl.
    destruct (decide_rel elem_of (cls d) (reverse (cls <$> ds))) as [Hin|Hnin].
    + rewrite decide_True; [done|].
      apply elem_of_dict_keys_batch. by rewrite elem_of_reverse in Hin.
    + rewrite decide_False.
      * by rewrite IH, reverse_cons.
      * rewrite elem_of_dict_keys_batch. by rewrite elem_of_reverse in Hnin.
  - apply batch_dictionary_NoDup.
  - apply elem_of_batch_dictionary.
  - intros c b [Hc ->]%elem_of_batch_dictionary Hnil.
    apply list_elem_of_fmap in Hc as (d & -> & Hd).
    eapply (filter_nil_not_elem_of _ _ d); [exact Hnil|done|done].
  - induction ds as [|d ds IH] using rev_ind; [done|].
    rewrite group_descriptors_snoc. cbn [batch_dictionary group_step].
    by rewrite defaultdict_append_concat, IH.
Qed.

End retrieval_outcomes.

(** * The batched retrieval with batch-fetches that raise *)

Section retrieval_faults.
Context {pytype : Type} `{EqDecision pytype}.
Context {Any : Type} `{Countable Any}.
Context {scalar : Type} {Fault : Type}.
Implicit Types (ds : list (@DescriptorElement pytype Any scalar)).
Implicit Types (c : pytype) (idx : gmap Any Z).
Implicit Types (ov res : list (option (list scalar))).
Implicit Types (run : pytype -> list (@DescriptorElement pytype Any scalar)
                      -> list (Any * option (list scalar)) * option Fault).

(** The outcome of the loops over any list of batches. *)
Lemma consume_batches_cases run idx
    (bd : dict pytype (list (@DescriptorElement pytype Any scalar))) ov :
  indices_below idx (length ov) ->
  match consume_batches run idx bd ov with
  | Returned res =>
      length res = length ov /\
      forall c b, (c, b) ∈ bd ->
        (run c b).2 = None /\
        forall p, p ∈ (run c b).1 -> is_Some (idx !! p.1)
  | Raised (PyExn x) =>
      x = KeyError /\
      exists c b p, (c, b) ∈ bd /\ p ∈ (run c b).1 /\ idx !! p.1 = None
  | Raised (BackendFault f) =>
      exists c b, (c, b) ∈ bd /\ (run c b).2 = Some f
  end.
Proof.
  revert ov. induction bd as [|[c b] bd IH]; intros ov Hb.
  - simpl. split; [done|]. by intros c b ?%elem_of_nil.
  - cbn [consume_batches]. unfold consume_batch.
    destruct (for_each_store_cases idx (run c b).1 ov Hb)
      as [[-> Hall]|[-> (p & Hp & Hnone)]].
    + destruct (run c b).2 as [f|] eqn:Hfault.
      * exists c, b. split; [by left|done].
      * assert (indices_below idx (length (writes idx (run c b).1 ov))) as Hb'
          by (by rewrite writes_length).
        specialize (IH _ Hb').
        destruct (consume_batches run idx bd _) as [res|[x|f]].
        -- destruct IH as [Hlen Hrest]. split; [by rewrite Hlen, writes_length|].
           intros c' b' [[= -> ->]|Hin]%elem_of_cons; [done|by apply Hrest].
        -- destruct IH as [-> (c' & b' & p & Hin & Hp & Hnone)].
           split; [done|]. exists c', b', p. split; [by right|done].
        -- destruct IH as (c' & b' & Hin & Hf). exists c', b'.
           split; [by right|done].
    + split; [done|]. exists c, b, p. split; [by left|done].
Qed.

(** When no batch-fetch raises, the call is the one of the definition that
    takes the pairs alone. *)
Lemma get_many_vectors_fallible_no_fault
    (fetch : pytype -> list (@DescriptorElement pytype Any scalar)
             -> list (Any * option (list scalar))) ds :
  get_many_vectors_fallible (Fault := Fault) (fun c b => (fetch c b, None)) ds
  = match get_many_vectors fetch ds with
    | Ok res => Returned res
    | Raise e => Raised (PyExn e)
    end.
Proof.
  unfold get_many_vectors_fallible, get_many_vectors.
  generalize (list_repeat (@None (list scalar))
                (index (group_descriptors ds) + 1)).
  generalize (uuid_indices (group_descriptors ds)).
  induction (batch_dictionary (group_descriptors ds)) as [|[c b] bd IH];
    intros idx ov; [done|].
  cbn [consume_batches for_each]. unfold consume_batch. cbn [fst snd].
  destruct (for_each (fetch c b) ov (store_vector idx)); simpl; [apply IH|done].
Qed.

(** With batch-fetches that may raise: [get_many_vectors] returns a list
    exactly when no batch-fetch raises and every key they yield is the uuid
    of an element of the input, and the list has the length of the input;
    what it raises otherwise is the fault of a batch-fetch, as that
    batch-fetch raised it, or [KeyError] at a yielded key that is no uuid of
    the input.  The assignment into the result list is always in range. *)
Theorem get_many_vectors_fallible_outcome run ds :
  (((forall c, c ∈ cls <$> ds -> (run c (batch_of c ds)).2 = None) /\
    (forall c p, c ∈ cls <$> ds -> p ∈ (run c (batch_of c ds)).1 ->
       p.1 ∈ uuid <$> ds))
   <-> exists res, get_many_vectors_fallible run ds = Returned res) /\
  (forall res, get_many_vectors_fallible run ds = Returned res ->
     length res = length ds) /\
  (forall x, get_many_vectors_fallible run ds = Raised (PyExn x) ->
     x = KeyError /\
     exists c p, c ∈ cls <$> ds /\ p ∈ (run c (batch_of c ds)).1 /\
                 p.1 ∉ uuid <$> ds) /\
  (forall f, get_many_vectors_fallible run ds = Raised (BackendFault f) ->
     exists c, c ∈ cls <$> ds /\ (run c (batch_of c ds)).2 = Some f).
Proof.
  unfold get_many_vectors_fallible, list_repeat.
  rewrite index_group_descriptors.
  replace (Z.to_nat (Z.of_nat (length ds) - 1 + 1)) with (length ds) by lia.
  assert (indices_below (uuid_indices (group_descriptors ds))
            (length (replicate (length ds) (@None (list scalar))))) as Hb.
  { rewrite length_replicate. apply uuid_indices_below. }
  assert (Hcases := consume_batches_cases run _
                      (batch_dictionary (group_descriptors ds)) _ Hb).
  destruct (consume_batches run _ _ _) as [res|[x|f]].
  - destruct Hcases as [Hlen Hall]. rewrite length_replicate in Hlen.
    split; [|split; [by intros ? [= <-]|done]].
    split; [by eexists|]. intros _. split.
    + intros c Hc. by apply (Hall c (batch_of c ds)), elem_of_batch_dictionary.
    + intros c p Hc Hp. apply uuid_indices_is_Some.
      by apply (Hall c (batch_of c ds)); [apply elem_of_batch_dictionary|].
  - destruct Hcases as [-> (c & b & p & [Hc ->]%elem_of_batch_dictionary
                            & Hp & Hnone)].
    assert (p.1 ∉ uuid <$> ds) as Hforeign.
    { rewrite <- uuid_indices_is_Some, Hnone. by intros [? ?]. }
    split; [|split; [done|split; [|done]]].
    + split; [|by intros [? ?]]. intros [_ Hin].
      by destruct (Hforeign (Hin c p Hc Hp)).
    + intros x [= <-]. split; [done|]. by exists c, p.
  - destruct Hcases as (c & b & [Hc ->]%elem_of_batch_dictionary & Hf).
    split; [|split; [done|split; [done|]]].
    + split; [|by intros [? ?]]. intros [Hnofault _].
      rewrite (Hnofault c Hc) in Hf. done.
    + intros f' [= <-]. by exists c.
Qed.

End retrieval_faults.

(** * Further properties of the identity of an element *)

Section identity_relations.
Context {pytype : Type} `{EqDecision pytype}.
Context {Any : Type} `{Countable Any}.
Context {scalar : Type}.
Implicit Types (a b c self e : @DescriptorElement pytype Any scalar).
Implicit Types (scalar_eqb : scalar -> scalar -> bool).

Lemma bool_eq_iff (x y : bool) : (x = true <-> y = true) -> x = y.
Proof. destruct x, y; intros [Hxy Hyx]; auto; symmetry; auto. Qed.

Lemma elementwise_equal_sym scalar_eqb (x y : option (list scalar)) :
  (forall s t, scalar_eqb s t = true -> scalar_eqb t s = true) ->
  elementwise_equal scalar_eqb x y -> elementwise_equal scalar_eqb y x.
Proof.
  intros Hsym. destruct x as [v|], y as [w|]; simpl; try done.
  intros Hvw. apply Forall2_flip. eapply Forall2_impl; [done|]. eauto.
Qed.

(** [==] between elements is symmetric when the scalar [==] is, and
    transitive when the scalar [==] is. *)
Theorem eq_symmetric_transitive scalar_eqb :
  ((forall s t, scalar_eqb s t = true -> scalar_eqb t s = true) ->
   forall a b, __eq__ scalar_eqb a (Element b) = __eq__ scalar_eqb b (Element a)) /\
  ((forall s t r, scalar_eqb s t = true -> scalar_eqb t r = true ->
                  scalar_eqb s r = true) ->
   forall a b c,
     __eq__ scalar_eqb a (Element b) = true ->
     __eq__ scalar_eqb b (Element c) = true ->
     __eq__ scalar_eqb a (Element c) = true).
Proof.
  split.
  - intros Hsym a b. apply bool_eq_iff. simpl.
    rewrite !array_equal_elementwise.
    split; by apply elementwise_equal_sym.
  - intros Htrans a b c. simpl. rewrite !array_equal_elementwise.
    destruct (vector a) as [u|], (vector b) as [v|], (vector c) as [w|];
      simpl; try done.
    intros Huv Hvw. revert w Hvw.
    induction Huv as [|x y u v Hxy Huv IH]; intros w Hvw.
    + by apply Forall2_nil_inv_l in Hvw as ->.
    + apply Forall2_cons_inv_l in Hvw as (z & w' & Hyz & Hvw' & ->).
      constructor; [by eapply Htrans|by apply IH].
Qed.

(** An element equals itself exactly when it has no vector, or every entry
    of its vector equals itself: a vector with an entry that is not equal
    to itself (a NaN) makes the element unequal to itself. *)
Theorem eq_reflexive_iff scalar_eqb a :
  __eq__ scalar_eqb a (Element a) = true
  <-> match vector a with
      | None => True
      | Some v => Forall (fun x => scalar_eqb x x = true) v
      end.
Proof.
  simpl. rewrite array_equal_elementwise.
  destruct (vector a) as [v|]; simpl; [|done].
  induction v as [|x v IH].
  - split; constructor.
  - rewrite Forall2_cons_iff, Forall_cons, IH. done.
Qed.

(** Equal elements need not hash alike: two elements whose vectors agree
    entry by entry are equal, and their hashes differ as soon as the hashes
    of their uuids do. *)
Theorem eq_without_equal_hash (hash : Any -> Z) scalar_eqb a b :
  elementwise_equal scalar_eqb (vector a) (vector b) ->
  hash (uuid a) <> hash (uuid b) ->
  __eq__ scalar_eqb a (Element b) = true /\ __hash__ hash a <> __hash__ hash b.
Proof.
  intros Heq Hhash. split; [|done]. by apply array_equal_elementwise.
Qed.

(** [__setstate__] reads the two entries ["_type_label"] and ["_uuid"] and
    nothing else: it succeeds exactly when both are present, keeping the
    class and the vector of the object; it raises [KeyError] when one is
    missing; and when the state has just these two keys, [__getstate__] of
    the restored object is the state again. *)
Theorem setstate_reads_identity self (state : gmap string Any) :
  (forall e',
     __setstate__ self state = Ok e'
     <-> exists t u,
           state !! "_type_label" = Some t /\ state !! "_uuid" = Some u /\
           e' = {| cls := cls self; _type_label := t; _uuid := u;
                   _vector := _vector self |}) /\
  (forall x,
     __setstate__ self state = Raise x ->
     x = KeyError /\
     (state !! "_type_label" = None \/ state !! "_uuid" = None)) /\
  (forall e',
     __setstate__ self state = Ok e' ->
     dom state = {[ "_type_label"; "_uuid" ]} ->
     __getstate__ e' = state).
Proof.
  unfold __setstate__, getitem.
  destruct (state !! "_type_label") as [t|] eqn:Ht; simpl;
    [destruct (state !! "_uuid") as [u|] eqn:Hu; simpl|].
  - split; [|split; [done|]].
    + intros e'. split; [intros [= <-]; by exists t, u|].
      by intros (t' & u' & [= <-] & [= <-] & ->).
    + intros e' [= <-] Hdom. unfold __getstate__. simpl.
      apply map_eq. intros k.
      destruct (decide (k = "_type_label")) as [->|Hk1];
        [by rewrite lookup_insert_eq|].
      rewrite lookup_insert_ne by done.
      destruct (decide (k = "_uuid")) as [->|Hk2];
        [by rewrite lookup_singleton_eq|].
      rewrite lookup_singleton_ne by done. symmetry.
      apply not_elem_of_dom. rewrite Hdom. set_solver.
  - split; [|split; [|done]].
    + intros e'. split; [done|]. by intros (t' & u' & _ & [=] & _).
    + intros x [= <-]. auto.
  - split; [|split; [|done]].
    + intros e'. split; [done|]. by intros (t' & u' & [=] & _).
    + intros x [= <-]. auto.
Qed.

(** Restoring the state of [e] into an object keeps the hash of [e]; the
    state carries no vector, so the object restored from it, when it holds
    no vector of its own, equals [e] only if [e] holds no vector either. *)
Theorem setstate_keeps_hash_not_equality (hash : Any -> Z) scalar_eqb
    e self e' :
  __setstate__ self (__getstate__ e) = Ok e' ->
  __hash__ hash e' = __hash__ hash e /\
  (vector self = None ->
   (__eq__ scalar_eqb e' (Element e) = true <-> vector e = None)).
Proof.
  unfold __setstate__, __getstate__, getitem.
  rewrite lookup_insert_eq. simpl.
  rewrite lookup_insert_ne, lookup_singleton_eq by done. simpl.
  intros [= <-]. split; [done|]. unfold vector. simpl. intros ->.
  by destruct (_vector e).
Qed.

End identity_relations.

(** * Further properties of the configuration *)

Section configuration_composition.
Context {pytype : Type} {Any : Type} {scalar : Type}.
Implicit Types (h : heap Any) (d cd dc : dictobj Any) (k : string).

Lemma dict_remove_filter (d : list (string * pyval Any)) k :
  dict_wf d -> dict_remove d k = filter (fun p => p.1 <> k) d.
Proof.
  unfold dict_wf, dict_keys. induction d as [|[k' v] d IH]; [done|].
  cbn [dict_remove fmap list_fmap fst].
  intros [Hk' Hnd]%NoDup_cons. destruct (decide (k' = k)) as [->|Hne].
  - rewrite filter_cons_False by (simpl; auto).
    clear IH Hnd. induction d as [|[k0 v0] d IH]; [done|].
    cbn [fmap list_fmap fst] in Hk'.
    apply not_elem_of_cons in Hk' as [Hne Hnin].
    rewrite filter_cons_True by (simpl; congruence). by rewrite <- IH.
  - rewrite filter_cons_True by done. by rewrite IH.
Qed.

Lemma dict_remove_length d k :
  is_Some (dict_get d k) -> S (length (dict_remove d k)) = length d.
Proof.
  induction d as [|[k' v] d IH]; simpl; [by intros [? ?]|].
  destruct (decide (k' = k)); [done|]. intros Hk. simpl. by rewrite IH.
Qed.

Lemma get_default_config_inv
    (Configurable_get_default_config : pytype -> dictobj Any) (cl : pytype) dc :
  get_default_config Configurable_get_default_config cl = Ok dc ->
  is_Some (dict_get (Configurable_get_default_config cl) "type_str") /\
  is_Some (dict_get (dict_remove (Configurable_get_default_config cl) "type_str")
             "uuid") /\
  dc = dict_remove (dict_remove (Configurable_get_default_config cl) "type_str")
         "uuid".
Proof.
  unfold get_default_config, dict_del.
  destruct (dict_get _ "type_str"); simpl; [|done].
  destruct (dict_get _ "uuid"); simpl; [|done].
  intros [= <-]. eauto.
Qed.

(** What [get_default_config] returns is the discovered dictionary without
    its two identity entries: the other entries are all there, with their
    values and in their order, and exactly two entries are gone. *)
Theorem get_default_config_keeps_order
    (Configurable_get_default_config : pytype -> dictobj Any) (cl : pytype) dc :
  dict_wf (Configurable_get_default_config cl) ->
  get_default_config Configurable_get_default_config cl = Ok dc ->
  dc = filter (fun p => p.1 <> "uuid" /\ p.1 <> "type_str")
         (Configurable_get_default_config cl : list (string * pyval Any)) /\
  (length dc + 2 = length (Configurable_get_default_config cl))%nat.
Proof.
  intros Hwf (Ht & Hu & ->)%get_default_config_inv. split.
  - rewrite (dict_remove_filter (dict_remove _ _))
      by (by apply dict_keys_remove).
    rewrite dict_remove_filter by done. by rewrite list_filter_filter.
  - apply dict_remove_length in Ht, Hu. lia.
Qed.

(** The body of [from_config] run on a dictionary that exists: the new
    dictionary is a new object and holds the entries of [config_dict] with
    the two identity entries assigned on top. *)
Lemma from_config_c_run (fuel : nat) (config_dict : loc)
    (type_str uuid : Any) h cd :
  h !! config_dict = Some cd -> dict_wf cd ->
  from_config_c (S fuel) config_dict type_str uuid h
  = Ok (fresh (dom h),
        <[fresh (dom h) :=
            dict_set (dict_set cd "type_str" (Leaf type_str)) "uuid" (Leaf uuid)]>
          h).
Proof.
  intros Hcd Hwf. set (c := fresh (dom h)).
  assert (h !! c = None) as Hc by (apply not_elem_of_dom, is_fresh).
  assert (c <> config_dict) as Hne by congruence.
  unfold from_config_c, new_dict. fold c.
  rewrite (merge_dict_into_empty fuel _ c config_dict cd);
    [|done|by rewrite lookup_insert_eq|by rewrite lookup_insert_ne|done].
  cbn [mbind result_bind]. unfold setitem.
  rewrite deref_insert_eq. cbn [mbind result_bind].
  rewrite deref_insert_eq. cbn [mbind result_bind].
  by rewrite !insert_insert_eq.
Qed.

(** Stripping and supplying the identity parameters compose: the dictionary
    that [from_config] builds from the default configuration of a class has
    an entry for every parameter the discovery found and for no other key,
    the default values first and the two identity entries at the end. *)
Theorem from_config_of_default_config
    (Configurable_get_default_config : pytype -> dictobj Any) (cl : pytype)
    dc (fuel : nat) (l : loc) (type_str uuid : Any) h :
  dict_wf (Configurable_get_default_config cl) ->
  get_default_config Configurable_get_default_config cl = Ok dc ->
  h !! l = Some dc -> (0 < fuel)%nat ->
  exists (c : loc) (h' : heap Any) (co : dictobj Any),
    from_config_c fuel l type_str uuid h = Ok (c, h') /\
    h' !! c = Some co /\
    co = dc ++ [("type_str", Leaf type_str); ("uuid", Leaf uuid)] /\
    (forall k, is_Some (dict_get co k)
       <-> is_Some (dict_get (Configurable_get_default_config cl) k)) /\
    (forall k, k <> "type_str" -> k <> "uuid" ->
       dict_get co k = dict_get (Configurable_get_default_config cl) k).
Proof.
  intros Hwf Hdc Hl Hfuel. destruct fuel as [|fuel]; [lia|].
  destruct (get_default_config_inv _ _ _ Hdc) as (Ht & Hu & Heq).
  set (d0 := Configurable_get_default_config cl) in *.
  assert (dict_wf (dict_remove d0 "type_str")) as Hwf1
    by (by apply dict_keys_remove).
  assert (dict_wf dc) as Hwf2 by (subst dc; by apply dict_keys_remove).
  assert (forall k, dict_get dc k
            = if decide ("uuid" = k) then None
              else if decide ("type_str" = k) then None else dict_get d0 k)
    as Hget.
  { intros k. subst dc. by rewrite !dict_get_remove. }
  assert ("type_str" ∉ dict_keys dc) as Hfresh1.
  { apply dict_get_None. by rewrite Hget. }
  assert ("uuid" ∉ dict_keys (dc ++ [("type_str", @Leaf Any type_str)])) as Hfresh2.
  { apply dict_get_None. rewrite <- dict_set_fresh by done.
    rewrite dict_get_set, Hget. done. }
  eexists _, _, _. split; [by apply from_config_c_run|].
  split; [by rewrite lookup_insert_eq|].
  assert (dict_set (dict_set dc "type_str" (Leaf type_str)) "uuid" (Leaf uuid)
          = dc ++ [("type_str", Leaf type_str); ("uuid", Leaf uuid)]) as ->.
  { rewrite (dict_set_fresh dc) by done. rewrite dict_set_fresh by done.
    by rewrite <- app_assoc. }
  split; [done|].
  assert (forall k,
            dict_get (dc ++ [("type_str", Leaf type_str); ("uuid", Leaf uuid)]) k
            = if decide ("uuid" = k) then Some (Leaf uuid)
              else if decide ("type_str" = k) then Some (Leaf type_str)
              else dict_get d0 k) as Hco.
  { intros k.
    replace (dc ++ [("type_str", Leaf type_str); ("uuid", Leaf uuid)])
      with (dict_set (dict_set dc "type_str" (Leaf type_str)) "uuid" (Leaf uuid)).
    - rewrite !dict_get_set, Hget.
      destruct (decide ("uuid" = k)); [done|]. by destruct (decide ("type_str" = k)).
    - rewrite (dict_set_fresh dc) by done. rewrite dict_set_fresh by done.
      by rewrite <- app_assoc. }
  split.
  - intros k. rewrite Hco.
    destruct (decide ("uuid" = k)) as [<-|].
    + split; [intros _|by eexists].
      rewrite dict_get_remove in Hu by done. by destruct (decide _).
    + destruct (decide ("type_str" = k)) as [<-|]; [|done].
      split; [done|by eexists].
  - intros k Hk1 Hk2. rewrite Hco. by rewrite !decide_False.
Qed.

(** One [config_dict] serves any number of constructions: a second call of
    [from_config] with the same [config_dict] builds a dictionary of its
    own, with its own identity entries and nothing of the first call's, and
    leaves the dictionary of the first call and [config_dict] as they
    were. *)
Theorem from_config_reuses_config_dict (fuel : nat) (config_dict : loc)
    (type_str1 uuid1 type_str2 uuid2 : Any) h cd :
  h !! config_dict = Some cd -> dict_wf cd -> (0 < fuel)%nat ->
  exists c1 h1 c2 h2,
    from_config_c fuel config_dict type_str1 uuid1 h = Ok (c1, h1) /\
    from_config_c fuel config_dict type_str2 uuid2 h1 = Ok (c2, h2) /\
    c1 <> c2 /\ c1 <> config_dict /\ c2 <> config_dict /\
    h2 !! config_dict = Some cd /\
    h2 !! c1
    = Some (dict_set (dict_set cd "type_str" (Leaf type_str1)) "uuid"
              (Leaf uuid1)) /\
    h2 !! c2
    = Some (dict_set (dict_set cd "type_str" (Leaf type_str2)) "uuid"
              (Leaf uuid2)).
Proof.
  intros Hcd Hwf Hfuel. destruct fuel as [|fuel]; [lia|].
  set (c1 := fresh (dom h)).
  set (co1 := dict_set (dict_set cd "type_str" (Leaf type_str1)) "uuid"
                (Leaf uuid1)).
  set (h1 := <[c1 := co1]> h).
  set (c2 := fresh (dom h1)).
  assert (h !! c1 = None) as Hc1 by (apply not_elem_of_dom, is_fresh).
  assert (h1 !! c2 = None) as Hc2 by (apply not_elem_of_dom, is_fresh).
  assert (c1 <> config_dict) as Hne1 by congruence.
  assert (h1 !! config_dict = Some cd) as Hcd1
    by (unfold h1; by rewrite lookup_insert_ne).
  assert (c2 <> config_dict) as Hne2 by congruence.
  assert (c1 <> c2) as Hne.
  { intros Heq. rewrite <- Heq in Hc2. unfold h1 in Hc2.
    by rewrite lookup_insert_eq in Hc2. }
  eexists c1, h1, c2, _. split; [by apply from_config_c_run|].
  split; [by apply from_config_c_run|]. do 3 (split; [done|]).
  fold c2. split; [by rewrite lookup_insert_ne|].
  split; [|by rewrite lookup_insert_eq].
  rewrite lookup_insert_ne by done. unfold h1. by rewrite lookup_insert_eq.
Qed.

End configuration_composition.

(** * The in-memory set: reloading from the cache *)

Section memory_reload.
Context {pytype : Type} {Any : Type} `{Countable Any} {scalar : Type}.
Context {Store Proto : Type} `{ByteStore Store}.
Context `{Serializer Proto (gmap Any (@DescriptorElement pytype Any scalar))}.
Implicit Types (self s : @MemoryDescriptorSet pytype Any _ _ scalar Store Proto).

Lemma init_of_cache_in_sync s :
  cache_in_sync s ->
  MemoryDescriptorSet_init (cache_element s) (pickle_protocol s) = Done s.
Proof.
  intros (st & Hst & Hempty & Hloads). unfold MemoryDescriptorSet_init.
  rewrite Hst, Hempty, Hloads. simpl. rewrite <- Hst. by destruct s.
Qed.

(** On the model of the set that follows the specification: a set with a
    cache store can be rebuilt from its cache after every mutating call.
    Constructing a set from the cache store and the protocol that
    [addDescriptor], [addManyDescriptors], [removeDescriptor],
    [removeManyDescriptors] or [clear] left behind gives the set that call
    returned, table included. *)
Theorem memory_set_reloads_from_cache self :
  is_Some (cache_element self) ->
  (forall d s', add_descriptor self d = Done s' ->
     MemoryDescriptorSet_init (cache_element s') (pickle_protocol s') = Done s') /\
  (forall ds s', add_many_descriptors self ds = Done s' ->
     MemoryDescriptorSet_init (cache_element s') (pickle_protocol s') = Done s') /\
  (forall k s', remove_descriptor self k = Done s' ->
     MemoryDescriptorSet_init (cache_element s') (pickle_protocol s') = Done s') /\
  (forall ks s', remove_many_descriptors self ks = Done s' ->
     MemoryDescriptorSet_init (cache_element s') (pickle_protocol s') = Done s') /\
  (forall s', clear self = Done s' ->
     MemoryDescriptorSet_init (cache_element s') (pickle_protocol s') = Done s').
Proof.
  intros Hcache. split; [|split; [|split; [|split]]].
  - intros d s' Hrun. apply init_of_cache_in_sync.
    by apply cache_table_in_sync in Hrun as [? _].
  - intros ds s' Hrun. apply init_of_cache_in_sync.
    by apply cache_table_in_sync in Hrun as [? _].
  - intros k s'. unfold remove_descriptor, remove_key.
    destruct (_table self !! k); simpl; [|done].
    intros Hrun. apply init_of_cache_in_sync.
    by apply cache_table_in_sync in Hrun as [? _].
  - intros ks s'. unfold remove_many_descriptors.
    destruct (remove_keys _ ks); simpl; [|done].
    intros Hrun. apply init_of_cache_in_sync.
    by apply cache_table_in_sync in Hrun as [? _].
  - intros s' Hrun. apply init_of_cache_in_sync.
    by apply cache_table_in_sync in Hrun as [? _].
Qed.

End memory_reload.

(** * The properties at concrete inputs *)

Example reversed_fetch_in_input_order :
  get_many_vectors reversed_fetch [d0; d1; d2]
  = Ok [Some [10; 11]; Some [20; 21]; Some [30; 31]].
Proof. vm_compute. reflexivity. Qed.

Example missing_vector_is_None :
  get_many_vectors reversed_fetch [d0; d3; d2]
  = Ok [Some [10; 11]; None; Some [30; 31]].
Proof. vm_compute. reflexivity. Qed.

Example duplicate_uuid_slots :
  get_many_vectors reversed_fetch [d0; d1; d0']
  = Ok [None; Some [20; 21]; Some [40; 41]].
Proof. vm_compute. reflexivity. Qed.

Example equal_vectors_other_identity :
  __eq__ Z.eqb d0 (Element (__init__ Y (Str "other") (Int 9) (Some [10; 11])))
  = true.
Proof. reflexivity. Qed.

Example default_config_of_discovered :
  get_default_config discovered_config X = Ok [("path", Leaf (Str "/tmp"))].
Proof. vm_compute. reflexivity. Qed.

Example clear_writes_the_empty_table :
  clear cached_set
  = Done {| _table := ∅;
            cache_element := Some {| _bytes := [Byte.x80]; _readonly := false |};
            pickle_protocol := () |}.
Proof. vm_compute. reflexivity. Qed.


(** C3, as the claim states it, fails: the stray pair is not dropped, and the
    call returns no list. *)
Lemma foreign_key_is_not_dropped :
  (Int 99, Some [0]) ∈ stray_fetch X (batch_of X [d0]) /\
  (Int 99 ∉ uuid <$> [d0]) /\
  ~ exists res, get_many_vectors stray_fetch [d0] = Ok res.
Proof.
  split; [by_evaluation|]. split; [by_evaluation|].
  intros [res Hres]. vm_compute in Hres. discriminate Hres.
Qed.

Lemma get_many_vectors_foreign_key_witness :
  X ∈ cls <$> [d0] /\
  (Int 99, Some [0]) ∈ stray_fetch X (batch_of X [d0]) /\
  ((Int 99, Some [0]).1 ∉ uuid <$> [d0]) /\
  get_many_vectors stray_fetch [d0] = Raise KeyError.
Proof.
  assert (X ∈ cls <$> [d0]) as Hc by by_evaluation.
  assert ((Int 99, Some [0]) ∈ stray_fetch X (batch_of X [d0])) as Hp
    by by_evaluation.
  assert ((Int 99, Some [0]).1 ∉ uuid <$> [d0]) as Hforeign by by_evaluation.
  do 3 (split; [done|]).
  exact (get_many_vectors_foreign_key stray_fetch [d0] X (Int 99, Some [0])
           Hc Hp Hforeign).
Defined.

Lemma get_many_vectors_duplicate_uuid_witness :
  last_occurrence [d0; d1; d0'] (Int 0) 2 /\
  uuid_indices (group_descriptors [d0; d1; d0']) !! Int 0 = Some 2 /\
  forall res,
    get_many_vectors reversed_fetch [d0; d1; d0'] = Ok res ->
    res !! 0%nat = Some None.
Proof.
  assert (last_occurrence [d0; d1; d0'] (Int 0) 2) as Hlast.
  { split; [by exists d0'|].
    intros [|[|[|j]]] d Hj Hd; simpl in *; (lia || done). }
  split; [done|].
  destruct (get_many_vectors_duplicate_uuid reversed_fetch [d0; d1; d0']
              (Int 0) 2 Hlast) as (Hidx & _ & Hearlier & _).
  split; [done|]. intros res Hres.
  apply (Hearlier res 0%nat d0 Hres); [lia|done|done].
Defined.


Lemma from_config_builds_fresh_mapping_witness :
  config_heap !! 1%positive
    = Some [("path", Leaf (Str "/data")); ("uuid", Leaf (Int 5))] /\
  dict_wf [("path", Leaf (Str "/data")); ("uuid", @Leaf value (Int 5))] /\
  (0 < 1)%nat /\
  exists c h' co,
    from_config_c 1 1%positive (Str "label") (Int 7) config_heap = Ok (c, h') /\
    h' !! c = Some co /\
    dict_get co "type_str" = Some (Leaf (Str "label")) /\
    dict_get co "uuid" = Some (Leaf (Int 7)) /\
    dict_get co "path" = Some (Leaf (Str "/data")) /\
    h' !! 1%positive
      = Some [("path", Leaf (Str "/data")); ("uuid", Leaf (Int 5))].
Proof.
  assert (config_heap !! 1%positive
          = Some [("path", Leaf (Str "/data")); ("uuid", Leaf (Int 5))])
    as Hcd by reflexivity.
  assert (dict_wf [("path", Leaf (Str "/data")); ("uuid", @Leaf value (Int 5))])
    as Hwf by by_evaluation.
  assert (0 < 1)%nat as Hfuel by lia.
  do 3 (split; [done|]).
  destruct (from_config_builds_fresh_mapping (pytype := backend) (scalar := Z)
              1 1%positive (Str "label") (Int 7) config_heap _ Hcd Hwf Hfuel)
    as (c & h' & co & Hrun & _ & Hco & Ht & Hu & Hother & _ & Hkept & _).
  exists c, h', co. do 4 (split; [done|]). split; [|done].
  by rewrite Hother.
Defined.

Lemma memory_set_cache_write_through_witness :
  is_Some (cache_element cached_set) /\
  (exists s', add_descriptor cached_set d1 = Done s') /\
  forall s', add_descriptor cached_set d1 = Done s' ->
    cache_in_sync s' /\ _table s' = <[Int 1 := d1]> {[ Int 0 := d0 ]}.
Proof.
  assert (is_Some (cache_element cached_set)) as Hcache by by eexists.
  split; [done|]. split; [by eexists|].
  destruct (memory_set_cache_write_through cached_set Hcache) as [Hadd _].
  intros s' Hs'. apply (Hadd d1 s' Hs').
Defined.

Lemma get_many_vectors_default_fetch_witness :
  NoDup (uuid <$> [d0; d3; d2]) /\
  completes_in_any_order reversed_fetch [d0; d3; d2] /\
  get_many_vectors reversed_fetch [d0; d3; d2]
  = Ok [Some [10; 11]; None; Some [30; 31]].
Proof.
  assert (NoDup (uuid <$> [d0; d3; d2])) as Hnd by by_evaluation.
  assert (completes_in_any_order reversed_fetch [d0; d3; d2]) as Hdefault.
  { intros c _. unfold reversed_fetch. apply reverse_Permutation. }
  do 2 (split; [done|]).
  exact (get_many_vectors_default_fetch reversed_fetch [d0; d3; d2]
           Hnd Hdefault).
Defined.

Lemma get_many_vectors_last_write_wins_witness :
  get_many_vectors reversed_fetch [d0; d1; d0']
  = Ok [None; Some [20; 21]; Some [40; 41]] /\
  [d0; d1; d0'] !! 2%nat = Some d0' /\
  [None; Some [20; 21]; Some [40; 41]] !! 2%nat
  = Some (last_reported (Int 0) (fetched reversed_fetch [d0; d1; d0'])) /\
  last_reported (Int 0) (fetched reversed_fetch [d0; d1; d0']) = Some [40; 41].
Proof.
  assert (get_many_vectors reversed_fetch [d0; d1; d0']
          = Ok [None; Some [20; 21]; Some [40; 41]]) as Hres
    by (vm_compute; reflexivity).
  assert ([d0; d1; d0'] !! 2%nat = Some d0') as Hi by reflexivity.
  do 2 (split; [done|]). split; [|vm_compute; reflexivity].
  exact (get_many_vectors_last_write_wins reversed_fetch [d0; d1; d0']
           _ 2%nat d0' Hres Hi).
Defined.

(** With a hash under which an integer hashes to itself. *)
Lemma eq_without_equal_hash_witness :
  elementwise_equal Z.eqb (vector d0)
    (vector (__init__ Y (Str "other") (Int 9) (Some [10; 11]))) /\
  __eq__ Z.eqb d0 (Element (__init__ Y (Str "other") (Int 9) (Some [10; 11])))
  = true /\
  __hash__ (fun v => match v with Int z => z | _ => 0 end) d0
  <> __hash__ (fun v => match v with Int z => z | _ => 0 end)
       (__init__ Y (Str "other") (Int 9) (Some [10; 11])).
Proof.
  assert (elementwise_equal Z.eqb (vector d0)
            (vector (__init__ Y (Str "other") (Int 9) (Some [10; 11]))))
    as Heq by (repeat constructor).
  split; [done|].
  apply (eq_without_equal_hash
           (fun v => match v with Int z => z | _ => 0 end) Z.eqb d0
           (__init__ Y (Str "other") (Int 9) (Some [10; 11])) Heq).
  simpl. lia.
Defined.

Lemma get_default_config_keeps_order_witness :
  dict_wf (discovered_config X) /\
  get_default_config discovered_config X = Ok [("path", Leaf (Str "/tmp"))] /\
  (1 + 2 = length (discovered_config X))%nat.
Proof.
  assert (dict_wf (discovered_config X)) as Hwf by by_evaluation.
  assert (get_default_config discovered_config X
          = Ok [("path", Leaf (Str "/tmp"))]) as Hrun
    by (vm_compute; reflexivity).
  do 2 (split; [done|]).
  exact (proj2 (get_default_config_keeps_order discovered_config X _ Hwf Hrun)).
Defined.

Lemma from_config_of_default_config_witness :
  dict_wf (discovered_config X) /\
  get_default_config discovered_config X = Ok [("path", Leaf (Str "/tmp"))] /\
  ({[ 1%positive := [("path", Leaf (Str "/tmp"))] ]} : heap value) !! 1%positive
  = Some [("path", Leaf (Str "/tmp"))] /\
  (0 < 1)%nat /\
  exists c h',
    from_config_c 1 1%positive (Str "label") (Int 7)
      {[ 1%positive := [("path", Leaf (Str "/tmp"))] ]} = Ok (c, h') /\
    h' !! c = Some [("path", Leaf (Str "/tmp"));
                    ("type_str", Leaf (Str "label")); ("uuid", Leaf (Int 7))].
Proof.
  assert (dict_wf (discovered_config X)) as Hwf by by_evaluation.
  assert (get_default_config discovered_config X
          = Ok [("path", Leaf (Str "/tmp"))]) as Hrun
    by (vm_compute; reflexivity).
  assert (({[ 1%positive := [("path", Leaf (Str "/tmp"))] ]} : heap value)
            !! 1%positive = Some [("path", Leaf (Str "/tmp"))]) as Hl
    by reflexivity.
  assert (0 < 1)%nat as Hfuel by lia.
  do 4 (split; [done|]).
  destruct (from_config_of_default_config discovered_config X _
              1 1%positive (Str "label") (Int 7) _ Hwf Hrun Hl Hfuel)
    as (c & h' & co & Hc & Hco & -> & _).
  by exists c, h'.
Defined.

Lemma from_config_reuses_config_dict_witness :
  config_heap !! 1%positive
    = Some [("path", Leaf (Str "/data")); ("uuid", Leaf (Int 5))] /\
  dict_wf [("path", Leaf (Str "/data")); ("uuid", @Leaf value (Int 5))] /\
  (0 < 1)%nat /\
  exists c1 h1 c2 h2,
    from_config_c 1 1%positive (Str "a") (Int 7) config_heap = Ok (c1, h1) /\
    from_config_c 1 1%positive (Str "b") (Int 8) h1 = Ok (c2, h2) /\
    c1 <> c2 /\
    h2 !! c1 = Some [("path", Leaf (Str "/data")); ("uuid", Leaf (Int 7));
                     ("type_str", Leaf (Str "a"))] /\
    h2 !! c2 = Some [("path", Leaf (Str "/data")); ("uuid", Leaf (Int 8));
                     ("type_str", Leaf (Str "b"))].
Proof.
  assert (config_heap !! 1%positive
          = Some [("path", Leaf (Str "/data")); ("uuid", Leaf (Int 5))])
    as Hcd by reflexivity.
  assert (dict_wf [("path", Leaf (Str "/data")); ("uuid", @Leaf value (Int 5))])
    as Hwf by by_evaluation.
  assert (0 < 1)%nat as Hfuel by lia.
  do 3 (split; [done|]).
  destruct (from_config_reuses_config_dict
              1 1%positive (Str "a") (Int 7) (Str "b") (Int 8)
              config_heap _ Hcd Hwf Hfuel)
    as (c1 & h1 & c2 & h2 & Hrun1 & Hrun2 & Hne & _ & _ & _ & Hc1 & Hc2).
  by exists c1, h1, c2, h2.
Defined.

Lemma memory_set_reloads_from_cache_witness :
  is_Some (cache_element cached_set) /\
  (exists s', clear cached_set = Done s') /\
  forall s', clear cached_set = Done s' ->
    MemoryDescriptorSet_init (cache_element s') (pickle_protocol s') = Done s'.
Proof.
  assert (is_Some (cache_element cached_set)) as Hcache by by eexists.
  split; [done|]. split; [by eexists|].
  by destruct (memory_set_reloads_from_cache cached_set Hcache)
    as (_ & _ & _ & _ & Hclear).
Defined.

Lemma get_many_vectors_repeated_uuid_witness :
  completes_in_any_order reversed_fetch [d0; d1; d0] /\
  (forall d d', d ∈ [d0; d1; d0] -> d' ∈ [d0; d1; d0] ->
     uuid d = uuid d' -> vector d = vector d') /\
  get_many_vectors reversed_fetch [d0; d1; d0]
  = Ok [None; Some [20; 21]; Some [10; 11]].
Proof.
  assert (completes_in_any_order reversed_fetch [d0; d1; d0]) as Hdefault.
  { intros c _. unfold reversed_fetch. apply reverse_Permutation. }
  assert (forall d d', d ∈ [d0; d1; d0] -> d' ∈ [d0; d1; d0] ->
            uuid d = uuid d' -> vector d = vector d') as Hsame.
  { intros d d' Hd Hd' Hu. elem_cases Hd; elem_cases Hd'; subst d d';
      (done || discriminate Hu). }
  do 2 (split; [done|]).
  exact (get_many_vectors_repeated_uuid reversed_fetch [d0; d1; d0]
           Hdefault Hsame).
Defined.

Lemma setstate_keeps_hash_not_equality_witness :
  __setstate__ (__init__ X PyNone PyNone None : elem) (__getstate__ d0)
  = Ok (__init__ X (Str "random") (Int 0) None : elem) /\
  __eq__ Z.eqb (__init__ X (Str "random") (Int 0) None : elem) (Element d0) <> true.
Proof.
  assert (__setstate__ (__init__ X PyNone PyNone None : elem) (__getstate__ d0)
          = Ok (__init__ X (Str "random") (Int 0) None : elem)) as Hrun
    by (vm_compute; reflexivity).
  split; [done|].
  destruct (setstate_keeps_hash_not_equality (fun _ => 0) Z.eqb d0
              (__init__ X PyNone PyNone None : elem) _ Hrun) as [_ Heq].
  intros Htrue. by apply Heq in Htrue.
Defined.

Example fault_of_a_batch_fetch_propagates :
  get_many_vectors_fallible faulting_run [d0; d2]
  = Raised (BackendFault "connection lost").
Proof. vm_compute. reflexivity. Qed.

Example stray_key_before_the_fault :
  get_many_vectors_fallible stray_then_faulting_run [d0]
  = Raised (PyExn KeyError).
Proof. vm_compute. reflexivity. Qed.


